(** * step-issuer: the Step provisioner ([provisioners/step.go])

    A shallow embedding of the signing adapter of the step-issuer and
    of the parts of Go's [bytes], [encoding/base64] and [encoding/pem]
    packages it calls, followed by the properties of the adapter.

    Conventions.
    - A Go [string] is a [string]; a Go [[]byte] is a [list ascii]
      (one [ascii] per byte).  Where the source distinguishes a nil
      slice from a non-nil one (the values returned by [Sign]) the
      slice is an [option]: [None] is [nil].
    - A Go result pair [(v, err)] is a [result]: [Ok v] when [err] is
      nil, [Err e] otherwise.
    - Calls that leave the process (the CA client of
      [github.com/smallstep/certificates/ca]) and the X.509 parser of
      [crypto/x509] are parameters of the development; every call to
      the CA is recorded in a trace so that the order and the number of
      round trips can be stated.
    - The standard library packages are not part of the repository;
      their models follow the Go sources ([bytes/bytes.go],
      [encoding/base64/base64.go], [encoding/pem/pem.go]) function by
      function. *)

From Stdlib Require Import NArith ZArith Ascii String List Lia.
From stdpp Require Import base option list strings gmap.
Import ListNotations.

Local Open Scope N_scope.
Local Open Scope nat_scope.
Local Open Scope list_scope.

(** ** Bytes and strings *)

Definition byte : Type := ascii.
Definition bytes : Type := list byte.

(** [[]byte(s)] and [string(b)]. *)
Definition bytes_of_string (s : string) : bytes := list_ascii_of_string s.
Definition string_of_bytes (b : bytes) : string := string_of_list_ascii b.

Definition byte_eqb (a b : byte) : bool := Ascii.eqb a b.

Definition nl : byte := "010"%char.
Definition cr : byte := "013"%char.
Definition sp : byte := " "%char.
Definition tab : byte := "009"%char.

(** A Go value of type [(T, error)]. *)
Inductive result (E A : Type) : Type :=
| Ok (a : A)
| Err (e : E).
Arguments Ok {E A} a.
Arguments Err {E A} e.

(** ** Package [bytes] *)
Module Bytes.

Fixpoint HasPrefix (s prefix : bytes) : bool :=
  match prefix, s with
  | [], _ => true
  | _ :: _, [] => false
  | p :: prefix', c :: s' => byte_eqb c p && HasPrefix s' prefix'
  end.

Definition Equal (a b : bytes) : bool := bool_decide (a = b).

(** [len(s) >= len(suffix) && s[len(s)-len(suffix):] == suffix] *)
Definition HasSuffix (s suffix : bytes) : bool :=
  (length suffix <=? length s) &&
  Equal (drop (length s - length suffix) s) suffix.

(** Index of the first [c] in [s], [None] for Go's [-1]. *)
Fixpoint IndexByte (s : bytes) (c : byte) : option nat :=
  match s with
  | [] => None
  | x :: s' => if byte_eqb x c then Some 0 else S <$> IndexByte s' c
  end.

(** Index of the first instance of [sep] in [s], [None] for [-1]. *)
Fixpoint Index (s sep : bytes) : option nat :=
  if HasPrefix s sep then Some 0
  else match s with
       | [] => None
       | _ :: s' => S <$> Index s' sep
       end.

(** [TrimRight(s, cutset)] for a cutset of single-byte characters. *)
Fixpoint TrimRight (s cutset : bytes) : bytes :=
  match s with
  | [] => []
  | c :: s' =>
      match TrimRight s' cutset with
      | [] => if existsb (byte_eqb c) cutset then [] else [c]
      | t => c :: t
      end
  end.

Definition ContainsAny (s chars : bytes) : bool :=
  existsb (fun c => existsb (byte_eqb c) chars) s.

End Bytes.

(** ** Package [encoding/base64], [StdEncoding] *)
Module Base64.

Definition encodeStd : string :=
  "ABCDEFGHIJKLMNOPQRSTUVWXYZabcdefghijklmnopqrstuvwxyz0123456789+/".

Definition padChar : byte := "="%char.

(** [enc.encode[i]] *)
Definition encode (i : N) : byte :=
  nth (N.to_nat i) (bytes_of_string encodeStd) "000"%char.

(** [enc.decodeMap[c]]: the index of [c] in the alphabet, [0xff]
    for the bytes outside it. *)
Definition decodeMap (c : byte) : N :=
  match Bytes.IndexByte (bytes_of_string encodeStd) c with
  | Some i => N.of_nat i
  | None => 255
  end.

Definition uint (b : byte) : N := N_of_ascii b.
(** The conversion [byte(v)] keeps the low eight bits. *)
Definition to_byte (v : N) : byte := ascii_of_N (N.land v 255).

(** [Encoding.Encode]: three source bytes give four characters, a
    final group of one or two bytes is padded with [=]. *)
Fixpoint Encode (src : bytes) : bytes :=
  match src with
  | [] => []
  | b0 :: b1 :: b2 :: src' =>
      let val := N.lor (N.lor (N.shiftl (uint b0) 16) (N.shiftl (uint b1) 8))
                       (uint b2) in
      encode (N.land (N.shiftr val 18) 63) ::
      encode (N.land (N.shiftr val 12) 63) ::
      encode (N.land (N.shiftr val 6) 63) ::
      encode (N.land val 63) :: Encode src'
  | [b0; b1] =>
      let val := N.lor (N.shiftl (uint b0) 16) (N.shiftl (uint b1) 8) in
      [encode (N.land (N.shiftr val 18) 63);
       encode (N.land (N.shiftr val 12) 63);
       encode (N.land (N.shiftr val 6) 63);
       padChar]
  | [b0] =>
      let val := N.shiftl (uint b0) 16 in
      [encode (N.land (N.shiftr val 18) 63);
       encode (N.land (N.shiftr val 12) 63);
       padChar; padChar]
  end.

(** The loops [for si < len(src) && (src[si] == '\n' || src[si] == '\r')]
    of [decodeQuantum]. *)
Fixpoint skipNewlines (src : bytes) : bytes :=
  match src with
  | c :: src' =>
      if byte_eqb c nl || byte_eqb c cr then skipNewlines src' else src
  | [] => []
  end.

(** The value assembled from the (at most four) six-bit digits read
    so far, missing digits being zero. *)
Definition quantumVal (dbuf : list N) : N :=
  N.lor (N.lor (N.lor (N.shiftl (nth 0 dbuf 0%N) 18)
                      (N.shiftl (nth 1 dbuf 0%N) 12))
               (N.shiftl (nth 2 dbuf 0%N) 6))
        (nth 3 dbuf 0%N).

(** The [dlen - 1] bytes a quantum of [dlen] digits stands for. *)
Definition quantumBytes (dbuf : list N) : bytes :=
  let val := quantumVal dbuf in
  take (length dbuf - 1)
       [to_byte (N.shiftr val 16); to_byte (N.shiftr val 8); to_byte val].

(** [Encoding.Decode], that is the loop over [decodeQuantum]; [dbuf]
    holds the digits of the current quantum.  Line feeds and carriage
    returns are skipped wherever they stand; any other byte outside
    the alphabet, a misplaced or incomplete padding, and bytes after
    the padding are [CorruptInputError]s, here [None]. *)
Fixpoint decodeFrom (src : bytes) (dbuf : list N) : option bytes :=
  match src with
  | [] =>
      match dbuf with
      | [] => Some []
      | _ => None
      end
  | c :: src' =>
      let out := decodeMap c in
      if negb (out =? 255)%N then
        let dbuf' := dbuf ++ [out] in
        if length dbuf' =? 4
        then (quantumBytes dbuf' ++.) <$> decodeFrom src' []
        else decodeFrom src' dbuf'
      else if byte_eqb c nl || byte_eqb c cr then decodeFrom src' dbuf
      else if negb (byte_eqb c padChar) then None
      else
        match length dbuf with
        | 2 =>
            match skipNewlines src' with
            | [] => None
            | c2 :: src'' =>
                if negb (byte_eqb c2 padChar) then None
                else match skipNewlines src'' with
                     | [] => Some (quantumBytes dbuf)
                     | _ => None
                     end
            end
        | 3 =>
            match skipNewlines src' with
            | [] => Some (quantumBytes dbuf)
            | _ => None
            end
        | _ => None
        end
  end.

Definition Decode (src : bytes) : option bytes := decodeFrom src [].

End Base64.

(** ** Package [encoding/pem] *)
Module Pem.

(** [pem.Block].  [Headers] keeps the header lines in reading order
    as (key, value) pairs, cut at the first colon and not trimmed
    ([bytes.TrimSpace] is left out): the decoder only asks whether
    there are any, and nothing in this repository reads them. *)
Record Block : Type := {
  Type' : string;
  Headers : list (bytes * bytes);
  Bytes : bytes
}.

Definition pemStart : bytes := nl :: bytes_of_string "-----BEGIN ".
Definition pemEnd : bytes := nl :: bytes_of_string "-----END ".
Definition pemEndOfLine : bytes := bytes_of_string "-----".
Definition colon : byte := ":"%char.
Definition pemLineLength : nat := 64.

(** [getLine]: the first line of [data] without its end-of-line and
    trailing blanks, and what follows that line. *)
Definition getLine (data : bytes) : bytes * bytes :=
  match Bytes.IndexByte data nl with
  | None => (Bytes.TrimRight data [sp; tab], [])
  | Some i =>
      let j := i + 1 in
      let i' := if (0 <? i) && byte_eqb (nth (i - 1) data nl) cr
                then i - 1 else i in
      (Bytes.TrimRight (take i' data) [sp; tab], drop j data)
  end.

Definition removeSpacesAndTabs (data : bytes) : bytes :=
  if negb (Bytes.ContainsAny data [sp; tab]) then data
  else filter (fun b => ¬ (b = sp ∨ b = tab)) data.

(** *** Encoding *)

(** [lineBreaker]: [line] is [l.line[0:l.used]], [out] what has been
    written to the underlying writer. *)
Record lineBreaker : Type := { line : bytes; out : bytes }.

(** [lineBreaker.Write]; the recursive call [l.Write(b[excess:])]
    is on a shorter slice, [fuel] bounds the depth. *)
Fixpoint lineBreaker_write (fuel : nat) (l : lineBreaker) (b : bytes)
  : lineBreaker :=
  match fuel with
  | 0 => l
  | S fuel' =>
      if length (line l) + length b <? pemLineLength
      then {| line := line l ++ b; out := out l |}
      else
        let excess := pemLineLength - length (line l) in
        lineBreaker_write fuel'
          {| line := []; out := out l ++ line l ++ take excess b ++ [nl] |}
          (drop excess b)
  end.

Definition lineBreaker_Write (l : lineBreaker) (b : bytes) : lineBreaker :=
  lineBreaker_write (S (length b)) l b.

(** [lineBreaker.Close] flushes a last, shorter line. *)
Definition lineBreaker_Close (l : lineBreaker) : bytes :=
  if 0 <? length (line l) then out l ++ line l ++ [nl] else out l.

(** [pem.Encode] into a fresh [bytes.Buffer], for a block without
    headers (the only kind this repository builds).  Writes to a
    buffer do not fail, so the returned error is always nil and the
    function is given as the bytes written: the BEGIN line, the
    base64 text in lines of 64 characters, the END line.  The base64
    encoder hands its output to the line breaker in several writes;
    they are taken as one here, which changes nothing
    ([PemFacts.lineBreaker_Write_app]). *)
Definition Encode (type : string) (b : bytes) : bytes :=
  let out0 := drop 1 pemStart ++ bytes_of_string type
                ++ bytes_of_string "-----" ++ [nl] in
  let breaker := {| line := []; out := out0 |} in
  let out1 := lineBreaker_Close (lineBreaker_Write breaker (Base64.Encode b)) in
  out1 ++ drop 1 pemEnd ++ bytes_of_string type
       ++ bytes_of_string "-----" ++ [nl].

(** *** Decoding *)

(** The start of a block: [rest] after a leading ["-----BEGIN "] or
    after the first ["\n-----BEGIN "]. *)
Definition afterStart (rest : bytes) : option bytes :=
  if Bytes.HasPrefix rest (drop 1 pemStart)
  then Some (drop (length pemStart - 1) rest)
  else match Bytes.Index rest pemStart with
       | Some i => Some (drop (i + length pemStart) rest)
       | None => None
       end.

(** The header loop: lines holding a colon are headers.  [None] when
    the input ends inside the headers. *)
Fixpoint readHeaders (fuel : nat) (rest : bytes) (hs : list (bytes * bytes))
  : option (list (bytes * bytes) * bytes) :=
  match rest with
  | [] => None
  | _ :: _ =>
      let '(line, next) := getLine rest in
      match Bytes.IndexByte line colon with
      | None => Some (hs, rest)
      | Some i =>
          match fuel with
          | 0 => None
          | S fuel' =>
              readHeaders fuel' next (hs ++ [(take i line, drop (i + 1) line)])
          end
      end
  end.

(** One attempt at the block whose type line starts [rest1] (the
    bytes after a BEGIN marker): [inl] the decoded block and the rest
    of the input, [inr] the position from which to search again. *)
Definition decodeAt (rest1 : bytes) : option (Block * bytes) + bytes :=
  let '(typeLine, rest2) := getLine rest1 in
  if negb (Bytes.HasSuffix typeLine pemEndOfLine) then inr rest2
  else
    let typeLine := take (length typeLine - length pemEndOfLine) typeLine in
    match readHeaders (length rest2) rest2 [] with
    | None => inl None
    | Some (hs, rest) =>
        let ends :=
          if (length hs =? 0) && Bytes.HasPrefix rest (drop 1 pemEnd)
          then Some (0, length pemEnd - 1)
          else match Bytes.Index rest pemEnd with
               | Some i => Some (i, i + length pemEnd)
               | None => None
               end in
        match ends with
        | None => inr rest
        | Some (endIndex, endTrailerIndex) =>
            let endTrailer := drop endTrailerIndex rest in
            let endTrailerLen := length typeLine + length pemEndOfLine in
            if length endTrailer <? endTrailerLen then inr rest
            else
              let restOfEndLine := drop endTrailerLen endTrailer in
              let endTrailer := take endTrailerLen endTrailer in
              if negb (Bytes.HasPrefix endTrailer typeLine)
                 || negb (Bytes.HasSuffix endTrailer pemEndOfLine)
              then inr rest
              else if negb (length (fst (getLine restOfEndLine)) =? 0)
              then inr rest
              else
                let base64Data := removeSpacesAndTabs (take endIndex rest) in
                match Base64.Decode base64Data with
                | None => inr rest
                | Some bs =>
                    inl (Some ({| Type' := string_of_bytes typeLine;
                                  Headers := hs;
                                  Bytes := bs |},
                               snd (getLine
                                      (drop (endIndex + length pemEnd - 1)
                                            rest))))
                end
        end
    end.

(** The search loop of [Decode]: each failed attempt resumes the
    search after the lines it consumed. *)
Fixpoint decodeLoop (fuel : nat) (data rest : bytes)
  : option Block * bytes :=
  match fuel with
  | 0 => (None, data)
  | S fuel' =>
      match afterStart rest with
      | None => (None, data)
      | Some rest1 =>
          match decodeAt rest1 with
          | inl (Some (p, rest')) => (Some p, rest')
          | inl None => (None, data)
          | inr rest' => decodeLoop fuel' data rest'
          end
      end
  end.

(** [pem.Decode]: the first well-formed block of [data] and the
    remainder of the input; [(None, data)] when there is none.  Every
    attempt consumes a BEGIN marker, so the fuel given here is never
    used up ([PemFacts.Decode_fuel]). *)
Definition Decode (data : bytes) : option Block * bytes :=
  decodeLoop (S (length data)) data data.

End Pem.

(** ** Types of the collaborating packages *)

(** [types.NamespacedName] of [k8s.io/apimachinery]. *)
Record NamespacedName : Type := {
  Namespace : string;
  Name : string
}.

#[global] Instance NamespacedName_eq_dec : EqDecision NamespacedName.
Proof. solve_decision. Defined.

#[global] Instance NamespacedName_countable : Countable NamespacedName.
Proof.
  refine (inj_countable' (fun n => (Namespace n, Name n))
                         (fun p => {| Namespace := p.1; Name := p.2 |}) _).
  intros []; reflexivity.
Defined.

(** [net.IP] is a byte slice; [url.URL] keeps the parsed components. *)
Definition IP : Type := bytes.

Record URL : Type := {
  Scheme : string;
  Opaque : string;
  User : option (string * option string);
  Host : string;
  Path : string;
  RawQuery : string;
  Fragment : string
}.

(** [x509.Certificate]: only the DER bytes are read here.  The
    certificates the CA client returns are taken to be non-nil. *)
Record Certificate : Type := { Raw : bytes }.

(** [x509.CertificateRequest], with the fields [Sign] reads;
    [CommonName] is [Subject.CommonName]. *)
Record CertificateRequest : Type := {
  CommonName : string;
  DNSNames : list string;
  EmailAddresses : list string;
  IPAddresses : list IP;
  URIs : list URL
}.

(** [api.StepIssuer], with the fields [New] reads: [iss.Name],
    [iss.Namespace] and those of [iss.Spec]. *)
Record StepIssuer : Type := {
  issName : string;
  issNamespace : string;
  specURL : string;
  specCABundle : bytes;
  specProvisionerName : string;
  specProvisionerKeyID : string
}.

(** cert-manager's [CertificateRequest]: [cr.Spec.Request] and
    [cr.Spec.Duration], a pointer ([None] is nil) to a duration in
    nanoseconds. *)
Record CertManagerRequest : Type := {
  specRequest : bytes;
  specDuration : option Z
}.

(** [ca.ClientOption]; [New] builds at most [ca.WithCABundle]. *)
Inductive ClientOption : Type :=
| WithCABundle (bundle : bytes).

(** [capi.VersionResponse], [capi.RootsResponse], [capi.SignResponse]. *)
Record VersionResponse : Type := {
  Version : string;
  RequireClientAuthentication : bool
}.

Record RootsResponse : Type := { Certificates : list Certificate }.

Record SignResponse : Type := {
  ServerPEM : Certificate;
  CaPEM : Certificate
}.

(** [capi.SignRequest]; [T] is [capi.TimeDuration], a type of the
    environment below. *)
Record SignRequest (T : Type) : Type := {
  CsrPEM : CertificateRequest;
  OTT : string;
  NotBefore : T;
  NotAfter : T
}.
Arguments CsrPEM {T} _.
Arguments OTT {T} _.
Arguments NotBefore {T} _.
Arguments NotAfter {T} _.

(** ** The environment of the adapter

    What the adapter calls and does not define: the error values and
    opaque handles of the imported packages, the renderings of [net.IP]
    and [url.URL], the X.509 request parser and signature check (pure
    functions of their argument), and the CA client, whose calls read
    and change the state of the world (the CA, the network, the
    client's transport). *)
Class Env : Type := {
  ExtError : Type;
  PrivateKey : Type;
  Transport : Type;
  Provisioner : Type;
  TimeDuration : Type;
  World : Type;
  (** [err.Error()] *)
  ErrorString : ExtError -> string;
  (** The zero [capi.TimeDuration] and [SetDuration]. *)
  TimeDuration_zero : TimeDuration;
  SetDuration : TimeDuration -> Z -> TimeDuration;
  (** [ip.String()], [u.String()] *)
  IP_String : IP -> string;
  URL_String : URL -> string;
  (** [x509.ParseCertificateRequest], [csr.CheckSignature] *)
  x509_ParseCertificateRequest : bytes -> result ExtError CertificateRequest;
  x509_CheckSignature : CertificateRequest -> option ExtError;
  (** Package [ca]. *)
  ca_NewProvisioner :
    string -> string -> string -> bytes -> list ClientOption ->
    World -> result ExtError Provisioner * World;
  ca_CreateCertificateRequest :
    string -> World -> result ExtError (CertificateRequest * PrivateKey) * World;
  ca_Version : Provisioner -> World -> result ExtError VersionResponse * World;
  ca_Roots : Provisioner -> World -> result ExtError RootsResponse * World;
  ca_Token :
    Provisioner -> string -> list string -> World -> result ExtError string * World;
  ca_Sign :
    Provisioner -> SignRequest TimeDuration ->
    World -> result ExtError SignResponse * World;
  ca_Transport :
    Provisioner -> SignResponse -> PrivateKey ->
    World -> result ExtError Transport * World;
  ca_SetTransport : Provisioner -> Transport -> World -> World
}.

(** ** Package [provisioners] *)
Section Provisioners.
Context `{Env}.

(** A Go [error] as the adapter sees it: a value made here with
    [fmt.Errorf], or one handed over by an imported package. *)
Inductive error : Type :=
| Errorf (msg : string)
| Upstream (e : ExtError).

(** A slice that may be nil, and [append(s, b...)] on it: appending
    nothing to nil leaves nil. *)
Definition slice : Type := option bytes.

Definition append (s : slice) (b : bytes) : slice :=
  match s, b with
  | None, [] => None
  | None, _ :: _ => Some b
  | Some a, _ => Some (a ++ b)
  end.

(** [Step]: a named client of one CA provisioner. *)
Record Step : Type := {
  name : string;
  provisioner : Provisioner
}.

(** *** Calls to the CA

    Each call of the CA client is recorded with its arguments and its
    result, in the order the calls are made. *)
Inductive Call : Type :=
| CallNewProvisioner (pname kid url : string) (password : bytes)
    (options : list ClientOption) (r : result ExtError Provisioner)
| CallCreateCertificateRequest (cn : string)
    (r : result ExtError (CertificateRequest * PrivateKey))
| CallVersion (p : Provisioner) (r : result ExtError VersionResponse)
| CallRoots (p : Provisioner) (r : result ExtError RootsResponse)
| CallToken (p : Provisioner) (subject : string) (sans : list string)
    (r : result ExtError string)
| CallSign (p : Provisioner) (req : SignRequest TimeDuration)
    (r : result ExtError SignResponse)
| CallTransport (p : Provisioner) (resp : SignResponse) (pk : PrivateKey)
    (r : result ExtError Transport)
| CallSetTransport (p : Provisioner) (tr : Transport).

Record State : Type := {
  world : World;
  trace : list Call
}.

(** Computations that call the CA. *)
Definition M (A : Type) : Type := State -> A * State.

Definition ret {A} (a : A) : M A := fun st => (a, st).

Definition bind {A B} (m : M A) (k : A -> M B) : M B :=
  fun st => let '(a, st') := m st in k a st'.

(** One round trip: run [f] on the world, record the call. *)
Definition call {A} (f : World -> result ExtError A * World)
    (ev : result ExtError A -> Call) : M (result ExtError A) :=
  fun st =>
    let '(r, w) := f (world st) in
    (r, {| world := w; trace := trace st ++ [ev r] |}).

Definition NewProvisioner (pname kid url : string) (password : bytes)
    (options : list ClientOption) : M (result ExtError Provisioner) :=
  call (ca_NewProvisioner pname kid url password options)
       (CallNewProvisioner pname kid url password options).

Definition CreateCertificateRequest (cn : string)
  : M (result ExtError (CertificateRequest * PrivateKey)) :=
  call (ca_CreateCertificateRequest cn) (CallCreateCertificateRequest cn).

Definition provisioner_Version (p : Provisioner)
  : M (result ExtError VersionResponse) :=
  call (ca_Version p) (CallVersion p).

Definition provisioner_Roots (p : Provisioner)
  : M (result ExtError RootsResponse) :=
  call (ca_Roots p) (CallRoots p).

Definition provisioner_Token (p : Provisioner) (subject : string)
    (sans : list string) : M (result ExtError string) :=
  call (ca_Token p subject sans) (CallToken p subject sans).

Definition provisioner_Sign (p : Provisioner) (req : SignRequest TimeDuration)
  : M (result ExtError SignResponse) :=
  call (ca_Sign p req) (CallSign p req).

Definition Client_Transport (p : Provisioner) (resp : SignResponse)
    (pk : PrivateKey) : M (result ExtError Transport) :=
  call (ca_Transport p resp pk) (CallTransport p resp pk).

Definition Client_SetTransport (p : Provisioner) (tr : Transport) : M unit :=
  fun st =>
    (tt, {| world := ca_SetTransport p tr (world st);
            trace := trace st ++ [CallSetTransport p tr] |}).

Notation "'let!' x ':=' m 'in' k" := (bind m (fun x => k))
  (at level 10, x pattern, m at level 100, k at level 200,
   format "'[v' 'let!'  x  ':='  m  'in' '/' k ']'").

(** *** The registry

    [collection] is a [sync.Map] from [types.NamespacedName] to
    values of any type; [Store] puts [*Step] pointers in it ([None]
    is the nil pointer). *)
Inductive any : Type :=
| AnyStep (p : option Step)
| AnyOther.

(** [Load] returns a Step provisioner by NamespacedName. *)
Definition Load (namespacedName : NamespacedName)
    (collection : gmap NamespacedName any) : option Step * bool :=
  match collection !! namespacedName with
  | None => (None, false)
  | Some v =>
      match v with
      | AnyStep p => (p, true)
      | AnyOther => (None, false)
      end
  end.

(** [Store] adds a new provisioner to the collection by NamespacedName. *)
Definition Store (namespacedName : NamespacedName) (provisioner : option Step)
    (collection : gmap NamespacedName any) : gmap NamespacedName any :=
  <[namespacedName := AnyStep provisioner]> collection.

(** *** The identity certificate *)

Definition createIdentityCertificate (s : Step) : M (option error) :=
  let! r := CreateCertificateRequest (name s) in
  match r with
  | Err err => ret (Some (Upstream err))
  | Ok (csr, pk) =>
      let! r := provisioner_Token (provisioner s) (name s) [] in
      match r with
      | Err err => ret (Some (Upstream err))
      | Ok token =>
          let! r := provisioner_Sign (provisioner s)
                      {| CsrPEM := csr; OTT := token;
                         NotBefore := TimeDuration_zero;
                         NotAfter := TimeDuration_zero |} in
          match r with
          | Err err => ret (Some (Upstream err))
          | Ok resp =>
              let! r := Client_Transport (provisioner s) resp pk in
              match r with
              | Err err => ret (Some (Upstream err))
              | Ok tr =>
                  let! _ := Client_SetTransport (provisioner s) tr in
                  ret None
              end
          end
      end
  end.

(** [New] returns a new Step provisioner, configured with the
    information in the given issuer: the pair [(p, err)] of the
    source. *)
Definition New (iss : StepIssuer) (password : bytes)
  : M (option Step * option error) :=
  let options :=
    if 0 <? length (specCABundle iss)
    then [WithCABundle (specCABundle iss)] else [] in
  let! r := NewProvisioner (specProvisionerName iss) (specProvisionerKeyID iss)
              (specURL iss) password options in
  match r with
  | Err err => ret (None, Some (Upstream err))
  | Ok prov =>
      let p := {| name := issName iss +:+ "." +:+ issNamespace iss;
                  provisioner := prov |} in
      let! v := provisioner_Version prov in
      match v with
      | Ok version =>
          if RequireClientAuthentication version then
            let! e := createIdentityCertificate p in
            match e with
            | Some err => ret (None, Some err)
            | None => ret (Some p, None)
            end
          else ret (Some p, None)
      | Err _ => ret (Some p, None)
      end
  end.

(** *** Decoding and encoding *)

(** [decodeCSR] decodes a certificate request in PEM format. *)
Definition decodeCSR (data : bytes) : result error CertificateRequest :=
  let '(block, rest) := Pem.Decode data in
  match block with
  | None => Err (Errorf "unexpected CSR PEM on sign request")
  | Some block =>
      if 0 <? length rest
      then Err (Errorf "unexpected CSR PEM on sign request")
      else if negb (String.eqb (Pem.Type' block) "CERTIFICATE REQUEST")
      then Err (Errorf "PEM is not a certificate request")
      else
        match x509_ParseCertificateRequest (Pem.Bytes block) with
        | Err err =>
            Err (Errorf ("error parsing certificate request: "
                           +:+ ErrorString err))
        | Ok csr =>
            match x509_CheckSignature csr with
            | Some err =>
                Err (Errorf ("error checking certificate request signature: "
                               +:+ ErrorString err))
            | None => Ok csr
            end
        end
  end.

(** [encodeX509] will encode a [*x509.Certificate] into PEM format.
    [pem.Encode] writes to a [bytes.Buffer] and returns no error. *)
Definition encodeX509 (cert : Certificate) : result error bytes :=
  Ok (Pem.Encode "CERTIFICATE" (Raw cert)).

(** The loop of [generateSubject]: the first SAN that is not
    127.0.0.1 or localhost, if the loop returns. *)
Fixpoint firstNotLocal (sans : list string) : option string :=
  match sans with
  | [] => None
  | s :: sans' =>
      if negb (String.eqb s "127.0.0.1") && negb (String.eqb s "localhost")
      then Some s
      else firstNotLocal sans'
  end.

(** [generateSubject] returns the first SAN that is not 127.0.0.1 or
    localhost; [step-issuer-certificate] if there are no SANs. *)
Definition generateSubject (sans : list string) : string :=
  if length sans =? 0 then "step-issuer-certificate"
  else match firstNotLocal sans with
       | Some s => s
       | None => nth 0 sans ""
       end.

(** *** Signing *)

(** The loop over [roots.Certificates] of [Sign]. *)
Fixpoint encodeRoots (roots : list Certificate) (caPem : slice)
  : result error slice :=
  match roots with
  | [] => Ok caPem
  | root :: roots' =>
      match encodeX509 root with
      | Err err => Err err
      | Ok b => encodeRoots roots' (append caPem b)
      end
  end.

(** The SANs of a request, as [Sign] collects them. *)
Definition collectSANs (csr : CertificateRequest) : list string :=
  let sans := [] ++ DNSNames csr in
  let sans := sans ++ EmailAddresses csr in
  let sans := fold_left (fun sans ip => sans ++ [IP_String ip])
                        (IPAddresses csr) sans in
  fold_left (fun sans u => sans ++ [URL_String u]) (URIs csr) sans.

(** The subject [Sign] asks a token for. *)
Definition tokenSubject (csr : CertificateRequest) (sans : list string)
  : string :=
  let subject := CommonName csr in
  if String.eqb subject "" then generateSubject sans else subject.

(** The [NotAfter] of the sign request. *)
Definition requestNotAfter (cr : CertManagerRequest) : TimeDuration :=
  let notAfter := TimeDuration_zero in
  match specDuration cr with
  | Some d => SetDuration notAfter d
  | None => notAfter
  end.

(** [Sign] sends the certificate request to the Step CA and returns
    the signed certificate: the triple [(certPem, caPem, err)] of the
    source. *)
Definition Sign (s : Step) (cr : CertManagerRequest)
  : M (slice * slice * option error) :=
  let! r := provisioner_Roots (provisioner s) in
  match r with
  | Err err => ret (None, None, Some (Upstream err))
  | Ok roots =>
      match encodeRoots (Certificates roots) None with
      | Err err => ret (None, None, Some err)
      | Ok caPem =>
          match decodeCSR (specRequest cr) with
          | Err err => ret (None, None, Some err)
          | Ok csr =>
              let sans := collectSANs csr in
              let subject := tokenSubject csr sans in
              let! r := provisioner_Token (provisioner s) subject sans in
              match r with
              | Err err => ret (None, None, Some (Upstream err))
              | Ok token =>
                  let notAfter := requestNotAfter cr in
                  let! r := provisioner_Sign (provisioner s)
                              {| CsrPEM := csr; OTT := token;
                                 NotBefore := TimeDuration_zero;
                                 NotAfter := notAfter |} in
                  match r with
                  | Err err => ret (None, None, Some (Upstream err))
                  | Ok resp =>
                      match encodeX509 (ServerPEM resp) with
                      | Err err => ret (None, None, Some err)
                      | Ok certPem =>
                          match encodeX509 (CaPEM resp) with
                          | Err err => ret (None, None, Some err)
                          | Ok chainPem =>
                              ret (Some (certPem ++ chainPem), caPem, None)
                          end
                      end
                  end
              end
          end
      end
  end.

End Provisioners.

(** The result and the calls of a computation started in world [w]
    with an empty trace. *)
Definition result_of `{Env} {A} (m : M A) (w : World) : A :=
  fst (m {| world := w; trace := [] |}).

Definition calls_of `{Env} {A} (m : M A) (w : World) : list Call :=
  trace (snd (m {| world := w; trace := [] |})).

(** The error of a call that failed. *)
Definition failure `{Env} (c : Call) : option ExtError :=
  match c with
  | CallNewProvisioner _ _ _ _ _ (Err e)
  | CallCreateCertificateRequest _ (Err e)
  | CallVersion _ (Err e)
  | CallRoots _ (Err e)
  | CallToken _ _ _ (Err e)
  | CallSign _ _ (Err e)
  | CallTransport _ _ _ (Err e) => Some e
  | _ => None
  end.

Definition is_Roots `{Env} (c : Call) : bool :=
  match c with CallRoots _ _ => true | _ => false end.

Definition is_Token `{Env} (c : Call) : bool :=
  match c with CallToken _ _ _ _ => true | _ => false end.

Definition is_Sign `{Env} (c : Call) : bool :=
  match c with CallSign _ _ _ => true | _ => false end.

(** The calls of the identity-certificate exchange: key and request
    generation, token issuance, signing, transport construction. *)
Definition is_exchange `{Env} (c : Call) : bool :=
  match c with
  | CallCreateCertificateRequest _ _
  | CallToken _ _ _ _
  | CallSign _ _ _
  | CallTransport _ _ _ _ => true
  | _ => false
  end.

(** What the calls of [New] show of a failed construction: the CA
    client could not be made; or the CA's configuration was fetched,
    asks for client authentication, and a call of the exchange failed. *)
Definition clientFailed `{Env} (calls : list Call) : Prop :=
  exists pname kid url password options e,
    In (CallNewProvisioner pname kid url password options (Err e)) calls.

Definition bootstrapFailed `{Env} (calls : list Call) : Prop :=
  exists p v c e,
    In (CallVersion p (Ok v)) calls /\
    RequireClientAuthentication v = true /\
    In c calls /\ is_exchange c = true /\ failure c = Some e.

(** The bytes of a slice, nil or not. *)
Definition slice_bytes (s : option bytes) : bytes := default [] s.

(** A SAN that [generateSubject] passes over when it can. *)
Definition isLocal (s : string) : Prop := s = "127.0.0.1" \/ s = "localhost".

(** ** A scripted CA

    A deterministic environment for examples: the world is a script
    that says which calls fail; the CA signs anything and serves one
    root. *)
Module Scripted.

Record Script : Type := {
  failNewProvisioner : bool;
  failVersion : bool;
  requireClientAuth : bool;
  failCreateCertificateRequest : bool;
  failRoots : bool;
  failToken : bool;
  failSign : bool;
  failTransport : bool
}.

Definition healthy : Script :=
  {| failNewProvisioner := false; failVersion := false;
     requireClientAuth := false; failCreateCertificateRequest := false;
     failRoots := false; failToken := false; failSign := false;
     failTransport := false |}.

Definition answer {A} (fail : bool) (msg : string) (a : A) (w : Script)
  : result string A * Script :=
  (if fail then Err msg else Ok a, w).

Definition rootCert : Certificate := {| Raw := bytes_of_string "root" |}.
Definition intermediateCert : Certificate :=
  {| Raw := bytes_of_string "intermediate" |}.

Definition leafFor (csr : CertificateRequest) : Certificate :=
  {| Raw := bytes_of_string ("leaf:" +:+ CommonName csr) |}.

Definition loopback : IP := bytes_of_string "127.0.0.1".

Definition csrNamed : CertificateRequest :=
  {| CommonName := "example.com"; DNSNames := ["example.com"];
     EmailAddresses := []; IPAddresses := []; URIs := [] |}.

Definition csrAnonymous : CertificateRequest :=
  {| CommonName := ""; DNSNames := ["localhost"; "app.example.com"];
     EmailAddresses := ["ops@example.com"]; IPAddresses := [loopback];
     URIs := [{| Scheme := "spiffe"; Opaque := ""; User := None;
                 Host := "example.com"; Path := "/app";
                 RawQuery := ""; Fragment := "" |}] |}.

Definition csrForged : CertificateRequest :=
  {| CommonName := "forged"; DNSNames := []; EmailAddresses := [];
     IPAddresses := []; URIs := [] |}.

(** A toy request syntax: three known bodies, anything else is
    malformed. *)
Definition parse (der : bytes) : result string CertificateRequest :=
  if bool_decide (der = bytes_of_string "named") then Ok csrNamed
  else if bool_decide (der = bytes_of_string "anonymous") then Ok csrAnonymous
  else if bool_decide (der = bytes_of_string "forged") then Ok csrForged
  else Err "asn1: syntax error".

Definition checkSignature (csr : CertificateRequest) : option string :=
  if String.eqb (CommonName csr) "forged"
  then Some "x509: signature mismatch" else None.

#[export] Instance env : Env := {|
  ExtError := string;
  PrivateKey := unit;
  Transport := unit;
  Provisioner := string;
  TimeDuration := Z;
  World := Script;
  ErrorString := fun e => e;
  TimeDuration_zero := 0%Z;
  SetDuration := fun _ d => d;
  IP_String := string_of_bytes;
  URL_String := fun u => Scheme u +:+ "://" +:+ Host u +:+ Path u;
  x509_ParseCertificateRequest := parse;
  x509_CheckSignature := checkSignature;
  ca_NewProvisioner := fun pname kid url password options w =>
    answer (failNewProvisioner w) "ca: cannot create provisioner" url w;
  ca_CreateCertificateRequest := fun cn w =>
    answer (failCreateCertificateRequest w) "ca: key generation failed"
           ({| CommonName := cn; DNSNames := []; EmailAddresses := [];
               IPAddresses := []; URIs := [] |}, tt) w;
  ca_Version := fun p w =>
    answer (failVersion w) "ca: version unavailable"
           {| Version := "0.15"; RequireClientAuthentication := requireClientAuth w |} w;
  ca_Roots := fun p w =>
    answer (failRoots w) "ca: roots unavailable"
           {| Certificates := [rootCert] |} w;
  ca_Token := fun p subject sans w =>
    answer (failToken w) "ca: token refused" ("token:" +:+ subject) w;
  ca_Sign := fun p req w =>
    answer (failSign w) "ca: sign refused"
           {| ServerPEM := leafFor (CsrPEM req); CaPEM := intermediateCert |} w;
  ca_Transport := fun p resp pk w =>
    answer (failTransport w) "ca: transport failed" tt w;
  ca_SetTransport := fun p tr w => w
|}.

(** Scripts with one fault each. *)
Definition noClient : Script :=
  {| failNewProvisioner := true; failVersion := false;
     requireClientAuth := false; failCreateCertificateRequest := false;
     failRoots := false; failToken := false; failSign := false;
     failTransport := false |}.

Definition versionDown : Script :=
  {| failNewProvisioner := false; failVersion := true;
     requireClientAuth := true; failCreateCertificateRequest := false;
     failRoots := false; failToken := false; failSign := false;
     failTransport := false |}.

Definition noTransport : Script :=
  {| failNewProvisioner := false; failVersion := false;
     requireClientAuth := true; failCreateCertificateRequest := false;
     failRoots := false; failToken := false; failSign := false;
     failTransport := true |}.

Definition tokenRefused : Script :=
  {| failNewProvisioner := false; failVersion := false;
     requireClientAuth := false; failCreateCertificateRequest := false;
     failRoots := false; failToken := true; failSign := false;
     failTransport := false |}.

Definition rootsDown : Script :=
  {| failNewProvisioner := false; failVersion := false;
     requireClientAuth := false; failCreateCertificateRequest := false;
     failRoots := true; failToken := false; failSign := false;
     failTransport := false |}.

Definition authRequired : Script :=
  {| failNewProvisioner := false; failVersion := false;
     requireClientAuth := true; failCreateCertificateRequest := false;
     failRoots := false; failToken := false; failSign := false;
     failTransport := false |}.

Definition step : Step := {| name := "issuer.default"; provisioner := "https://ca" |}.

Definition issuer : StepIssuer :=
  {| issName := "issuer"; issNamespace := "default"; specURL := "https://ca";
     specCABundle := []; specProvisionerName := "admin";
     specProvisionerKeyID := "kid" |}.

(** Requests in PEM, as cert-manager hands them over. *)
Definition requestOf (body : string) (duration : option Z) : CertManagerRequest :=
  {| specRequest := Pem.Encode "CERTIFICATE REQUEST" (bytes_of_string body);
     specDuration := duration |}.

End Scripted.

(** * Notions used in the proofs *)

(** ** Base64 text and its lines *)

Definition isNewline (c : byte) : bool := byte_eqb c nl || byte_eqb c cr.

(** The text without its line feeds and carriage returns. *)
Definition strip (src : bytes) : bytes :=
  List.filter (fun c => negb (isNewline c)) src.

(** The 65 characters of base64 text. *)
Definition textChars : bytes := bytes_of_string Base64.encodeStd ++ [Base64.padChar].

Definition isText (c : byte) : bool := existsb (byte_eqb c) textChars.

Definition Text (c : byte) : Prop := isText c = true.

(** A text character or a line feed. *)
Definition Line (c : byte) : Prop := Text c \/ c = nl.

Definition dash : byte := "-"%char.

(** A block type the decoder reads back: no line feed and no colon. *)
Definition TypeOk (ty : string) : Prop :=
  Forall (fun c => c <> nl /\ c <> Pem.colon) (bytes_of_string ty).

(** The BEGIN and END lines after their marker, without and with the
    line feed. *)
Definition typeLine (ty : string) : bytes :=
  bytes_of_string ty ++ Pem.pemEndOfLine.

Definition endLine (ty : string) : bytes := typeLine ty ++ [nl].

(** [body] is [s] cut in lines of 64 characters, each ended by a line
    feed. *)
Inductive Broken : bytes -> bytes -> Prop :=
| Broken_nil : Broken [] []
| Broken_last s : 0 < length s < 64 -> Broken s (s ++ [nl])
| Broken_line chunk rest body :
    length chunk = 64 -> Broken rest body ->
    Broken (chunk ++ rest) (chunk ++ nl :: body).

(** ** Runs of the adapter *)

(** The PEM text of a certificate. *)
Definition pemOf (cert : Certificate) : bytes :=
  Pem.Encode "CERTIFICATE" (Raw cert).

(** The five ways a call of [Sign] can go, with the calls made and the
    triple returned in each. *)
Inductive SignRun `{Env} (s : Step) (cr : CertManagerRequest) (w : World)
  : list Call -> slice * slice * option error -> Prop :=
| RunRootsFailed e w1 :
    ca_Roots (provisioner s) w = (Err e, w1) ->
    SignRun s cr w [CallRoots (provisioner s) (Err e)]
            (None, None, Some (Upstream e))
| RunRequestRejected roots w1 err :
    ca_Roots (provisioner s) w = (Ok roots, w1) ->
    decodeCSR (specRequest cr) = Err err ->
    SignRun s cr w [CallRoots (provisioner s) (Ok roots)]
            (None, None, Some err)
| RunTokenFailed roots w1 csr e w2 :
    ca_Roots (provisioner s) w = (Ok roots, w1) ->
    decodeCSR (specRequest cr) = Ok csr ->
    ca_Token (provisioner s) (tokenSubject csr (collectSANs csr))
             (collectSANs csr) w1 = (Err e, w2) ->
    SignRun s cr w
            [CallRoots (provisioner s) (Ok roots);
             CallToken (provisioner s) (tokenSubject csr (collectSANs csr))
                       (collectSANs csr) (Err e)]
            (None, None, Some (Upstream e))
| RunSignFailed roots w1 csr token w2 e w3 :
    ca_Roots (provisioner s) w = (Ok roots, w1) ->
    decodeCSR (specRequest cr) = Ok csr ->
    ca_Token (provisioner s) (tokenSubject csr (collectSANs csr))
             (collectSANs csr) w1 = (Ok token, w2) ->
    let req := {| CsrPEM := csr; OTT := token;
                  NotBefore := TimeDuration_zero;
                  NotAfter := requestNotAfter cr |} in
    ca_Sign (provisioner s) req w2 = (Err e, w3) ->
    SignRun s cr w
            [CallRoots (provisioner s) (Ok roots);
             CallToken (provisioner s) (tokenSubject csr (collectSANs csr))
                       (collectSANs csr) (Ok token);
             CallSign (provisioner s) req (Err e)]
            (None, None, Some (Upstream e))
| RunSigned roots w1 csr token w2 resp w3 caPem :
    ca_Roots (provisioner s) w = (Ok roots, w1) ->
    decodeCSR (specRequest cr) = Ok csr ->
    ca_Token (provisioner s) (tokenSubject csr (collectSANs csr))
             (collectSANs csr) w1 = (Ok token, w2) ->
    let req := {| CsrPEM := csr; OTT := token;
                  NotBefore := TimeDuration_zero;
                  NotAfter := requestNotAfter cr |} in
    ca_Sign (provisioner s) req w2 = (Ok resp, w3) ->
    slice_bytes caPem = concat (map pemOf (Certificates roots)) ->
    SignRun s cr w
            [CallRoots (provisioner s) (Ok roots);
             CallToken (provisioner s) (tokenSubject csr (collectSANs csr))
                       (collectSANs csr) (Ok token);
             CallSign (provisioner s) req (Ok resp)]
            (Some (pemOf (ServerPEM resp) ++ pemOf (CaPEM resp)), caPem, None).

(** The collection after a sequence of [Store]s, oldest first. *)
Definition storeAll `{Env} (stores : list (NamespacedName * option Step))
    (collection : gmap NamespacedName any) : gmap NamespacedName any :=
  fold_left (fun c kv => Store kv.1 kv.2 c) stores collection.

(** ** Readers and runs *)




(** The call that replaces the client's transport. *)
Definition is_SetTransport `{Env} (c : Call) : bool :=
  match c with CallSetTransport _ _ => true | _ => false end.

(** The options [New] hands to [ca.NewProvisioner]. *)
Definition optionsOf (iss : StepIssuer) : list ClientOption :=
  if 0 <? length (specCABundle iss)
  then [WithCABundle (specCABundle iss)] else [].

(** The provisioner [New] wraps. *)
Definition stepOf `{Env} (iss : StepIssuer) (prov : Provisioner) : Step :=
  {| name := issName iss +:+ "." +:+ issNamespace iss; provisioner := prov |}.

(** ** Proof automation *)

(** Arithmetic on [N] with division and remainder by constants. *)
Ltac arith := zify; Z.to_euclidean_division_equations; lia.

Ltac decode_cases :=
  repeat split; intros;
  repeat match goal with
         | E : exists _, _ |- _ => destruct E
         | E : _ /\ _ |- _ => destruct E
         | E : (_, _) = (_, _) |- _ => inversion E; subst; clear E
         | E : Ok _ = Ok _ |- _ => inversion E; subst; clear E
         end;
  try congruence; eauto 10.

Ltac run_New :=
  unfold calls_of, result_of, New, createIdentityCertificate, bind,
    NewProvisioner, provisioner_Version, CreateCertificateRequest,
    provisioner_Token, provisioner_Sign, Client_Transport,
    Client_SetTransport, call, ret; simpl.

Ltac split_In :=
  repeat match goal with
         | E : exists _, _ |- _ => destruct E
         | E : _ /\ _ |- _ => destruct E
         | E : In _ _ |- _ => simpl in E
         | E : _ \/ _ |- _ => destruct E
         | E : False |- _ => destruct E
         | E : _ = _ |- _ => first [discriminate E | subst; simpl in * ]
         end.

Ltac finish_New :=
  unfold clientFailed, bootstrapFailed; simpl;
  repeat split; intros;
  split_In; try congruence; try discriminate;
  try (left; do 6 eexists; simpl; eauto 10; fail);
  try (right; do 4 eexists; simpl; eauto 15; fail).

Ltac same_results :=
  repeat match goal with
         | A : ?x = Ok _, B : ?x = Ok _ |- _ =>
             rewrite A in B; inversion B; subst; clear B
         | A : ?x = Ok _, B : ?x = Err _ |- _ =>
             rewrite A in B; discriminate B
         | A : ?x = (Ok _, _), B : ?x = (Ok _, _) |- _ =>
             rewrite A in B; inversion B; subst; clear B
         | A : ?x = (Ok _, _), B : ?x = (Err _, _) |- _ =>
             rewrite A in B; discriminate B
         | A : ?x = (Err _, _), B : ?x = (Err _, _) |- _ =>
             rewrite A in B; inversion B; subst; clear B
         end.

Ltac run_exchange s w :=
  destruct (ca_CreateCertificateRequest (name s) w) as [[[?csr ?pk]|?e] ?w];
    simpl;
    [destruct (ca_Token (provisioner s) _ _ _) as [[?token|?e] ?w]; simpl;
     [destruct (ca_Sign (provisioner s) _ _) as [[?resp|?e] ?w]; simpl;
      [destruct (ca_Transport (provisioner s) _ _ _) as [[?tr|?e] ?w]; simpl
      |]|]|].

Ltac run_New_cases iss password w :=
  run_New;
  destruct (ca_NewProvisioner (specProvisionerName iss)
              (specProvisionerKeyID iss) (specURL iss) password _ w)
    as [[?prov|?e] ?w]; simpl;
  [match goal with
   | prov : Provisioner |- _ =>
       destruct (ca_Version prov _) as [[[?ver [|]]|?e] ?w]; simpl;
       [destruct (ca_CreateCertificateRequest _ _)
          as [[[?csr ?pk]|?e] ?w]; simpl;
        [destruct (ca_Token prov _ _ _) as [[?token|?e] ?w]; simpl;
         [destruct (ca_Sign prov _ _) as [[?resp|?e] ?w]; simpl;
          [destruct (ca_Transport prov _ _ _) as [[?tr|?e] ?w]; simpl
          |]|]|]| |]
   end|].

(** * Properties *)

(** ** Base64 *)
Module Base64Facts.
Import Base64.

Local Open Scope N_scope.

(** Bitwise or of a multiple of [2^k] and a number below [2^k] is
    their sum. *)
Lemma lor_add (a b k : N) :
  a mod 2 ^ k = 0 -> b < 2 ^ k -> N.lor a b = a + b.
Proof.
  intros Ha Hb.
  assert (Hland : N.land a b = 0).
  { apply N.bits_inj_0. intros n. rewrite N.land_spec.
    destruct (N.lt_ge_cases n k) as [Hn|Hn].
    - rewrite <- (N.mod_pow2_bits_low a k n Hn), Ha, N.bits_0. reflexivity.
    - rewrite <- (N.mod_small b (2 ^ k) Hb), N.mod_pow2_bits_high by assumption.
      apply andb_false_r. }
  rewrite <- N.lxor_lor by assumption.
  symmetry. apply N.add_nocarry_lxor. assumption.
Qed.

Lemma sextet_lt (v : N) : N.land v 63 < 64.
Proof. change 63 with (N.ones 6). rewrite N.land_ones. apply N.mod_lt. discriminate. Qed.

(** Every six-bit digit is read back from its letter. *)
Lemma decodeMap_encode (i : N) : i < 64 -> decodeMap (encode i) = i.
Proof.
  intros Hi.
  assert (Hall : forallb (fun n => (decodeMap (encode (N.of_nat n)) =? N.of_nat n)%N)
                         (seq 0 64) = true) by (vm_compute; reflexivity).
  rewrite forallb_forall in Hall.
  specialize (Hall (N.to_nat i)).
  rewrite N2Nat.id in Hall. apply N.eqb_eq, Hall, in_seq. lia.
Qed.

Lemma decodeFrom_digit (i : N) (src : bytes) (dbuf : list N) :
  i < 64 ->
  decodeFrom (encode i :: src) dbuf =
    if (length (dbuf ++ [i]) =? 4)%nat
    then (quantumBytes (dbuf ++ [i]) ++.) <$> decodeFrom src []
    else decodeFrom src (dbuf ++ [i]).
Proof.
  intros Hi. cbn [decodeFrom]. rewrite (decodeMap_encode i Hi).
  destruct (N.eqb_spec i 255) as [->|_]; [discriminate|]. reflexivity.
Qed.

Lemma decodeFrom_quantum (s0 s1 s2 s3 : N) (src : bytes) :
  s0 < 64 -> s1 < 64 -> s2 < 64 -> s3 < 64 ->
  decodeFrom (encode s0 :: encode s1 :: encode s2 :: encode s3 :: src) [] =
    (quantumBytes [s0; s1; s2; s3] ++.) <$> decodeFrom src [].
Proof.
  intros H0 H1 H2 H3.
  rewrite !decodeFrom_digit by assumption. reflexivity.
Qed.

Lemma decodeFrom_pad1 (s0 s1 s2 : N) :
  s0 < 64 -> s1 < 64 -> s2 < 64 ->
  decodeFrom [encode s0; encode s1; encode s2; padChar] [] =
    Some (quantumBytes [s0; s1; s2]).
Proof.
  intros H0 H1 H2.
  rewrite !decodeFrom_digit by assumption. reflexivity.
Qed.

Lemma decodeFrom_pad2 (s0 s1 : N) :
  s0 < 64 -> s1 < 64 ->
  decodeFrom [encode s0; encode s1; padChar; padChar] [] =
    Some (quantumBytes [s0; s1]).
Proof.
  intros H0 H1.
  rewrite !decodeFrom_digit by assumption. reflexivity.
Qed.

Lemma to_byte_uint (v : N) (b : byte) :
  v mod 256 = uint b -> to_byte v = b.
Proof.
  intros Hv. unfold to_byte. change 255 with (N.ones 8).
  rewrite N.land_ones. change (2 ^ 8) with 256.
  rewrite Hv. apply ascii_N_embedding.
Qed.

Lemma uint_lt (b : byte) : uint b < 256.
Proof. apply N_ascii_bounded. Qed.

(** The arithmetic of a full group: three bytes, four digits, and back. *)
Lemma quantum3 (b0 b1 b2 : byte) :
  let val := N.lor (N.lor (N.shiftl (uint b0) 16) (N.shiftl (uint b1) 8))
                   (uint b2) in
  quantumBytes [N.land (N.shiftr val 18) 63; N.land (N.shiftr val 12) 63;
                N.land (N.shiftr val 6) 63; N.land val 63] = [b0; b1; b2].
Proof.
  pose proof (uint_lt b0) as L0. pose proof (uint_lt b1) as L1.
  pose proof (uint_lt b2) as L2.
  intros val.
  assert (Hval : val = uint b0 * 65536 + uint b1 * 256 + uint b2).
  { subst val. rewrite !N.shiftl_mul_pow2.
    rewrite (lor_add (uint b0 * 2 ^ 16) (uint b1 * 2 ^ 8) 16) by arith.
    rewrite (lor_add _ (uint b2) 8) by arith.
    arith. }
  clearbody val.
  unfold quantumBytes, quantumVal. cbn [nth length Nat.sub take].
  change 63 with (N.ones 6).
  rewrite !N.land_ones, !N.shiftr_div_pow2, !N.shiftl_mul_pow2.
  set (s0 := (val / 2 ^ 18) mod 2 ^ 6). set (s1 := (val / 2 ^ 12) mod 2 ^ 6).
  set (s2 := (val / 2 ^ 6) mod 2 ^ 6). set (s3 := val mod 2 ^ 6).
  rewrite (lor_add (s0 * 2 ^ 18) (s1 * 2 ^ 12) 18) by (subst s0 s1; arith).
  rewrite (lor_add _ (s2 * 2 ^ 6) 12) by (subst s0 s1 s2; arith).
  rewrite (lor_add _ s3 6) by (subst s0 s1 s2 s3; arith).
  assert (Hq : s0 * 2 ^ 18 + s1 * 2 ^ 12 + s2 * 2 ^ 6 + s3 = val)
    by (subst s0 s1 s2 s3; arith).
  rewrite Hq.
  f_equal; [|f_equal; [|f_equal]]; apply to_byte_uint; subst val; arith.
Qed.

(** A final group of two bytes: three digits and one [=]. *)
Lemma quantum2 (b0 b1 : byte) :
  let val := N.lor (N.shiftl (uint b0) 16) (N.shiftl (uint b1) 8) in
  quantumBytes [N.land (N.shiftr val 18) 63; N.land (N.shiftr val 12) 63;
                N.land (N.shiftr val 6) 63] = [b0; b1].
Proof.
  pose proof (uint_lt b0) as L0. pose proof (uint_lt b1) as L1.
  intros val.
  assert (Hval : val = uint b0 * 65536 + uint b1 * 256).
  { subst val. rewrite !N.shiftl_mul_pow2.
    rewrite (lor_add (uint b0 * 2 ^ 16) (uint b1 * 2 ^ 8) 16) by arith.
    arith. }
  clearbody val.
  unfold quantumBytes, quantumVal. cbn [nth length Nat.sub take].
  change 63 with (N.ones 6).
  rewrite !N.land_ones, !N.shiftr_div_pow2, !N.shiftl_mul_pow2.
  set (s0 := (val / 2 ^ 18) mod 2 ^ 6). set (s1 := (val / 2 ^ 12) mod 2 ^ 6).
  set (s2 := (val / 2 ^ 6) mod 2 ^ 6).
  rewrite (lor_add (s0 * 2 ^ 18) (s1 * 2 ^ 12) 18) by (subst s0 s1; arith).
  rewrite (lor_add _ (s2 * 2 ^ 6) 12) by (subst s0 s1 s2; arith).
  rewrite N.lor_0_r.
  assert (Hq : s0 * 2 ^ 18 + s1 * 2 ^ 12 + s2 * 2 ^ 6 = val)
    by (subst s0 s1 s2; arith).
  rewrite Hq.
  f_equal; [|f_equal]; apply to_byte_uint; subst val; arith.
Qed.

(** A final group of one byte: two digits and two [=]. *)
Lemma quantum1 (b0 : byte) :
  let val := N.shiftl (uint b0) 16 in
  quantumBytes [N.land (N.shiftr val 18) 63; N.land (N.shiftr val 12) 63]
  = [b0].
Proof.
  pose proof (uint_lt b0) as L0.
  intros val.
  assert (Hval : val = uint b0 * 65536).
  { subst val. rewrite !N.shiftl_mul_pow2. arith. }
  clearbody val.
  unfold quantumBytes, quantumVal. cbn [nth length Nat.sub take].
  change 63 with (N.ones 6).
  rewrite !N.land_ones, !N.shiftr_div_pow2, !N.shiftl_mul_pow2.
  set (s0 := (val / 2 ^ 18) mod 2 ^ 6). set (s1 := (val / 2 ^ 12) mod 2 ^ 6).
  rewrite (lor_add (s0 * 2 ^ 18) (s1 * 2 ^ 12) 18) by (subst s0 s1; arith).
  change (0 * 2 ^ 6) with 0. rewrite !N.lor_0_r.
  assert (Hq : s0 * 2 ^ 18 + s1 * 2 ^ 12 = val) by (subst s0 s1; arith).
  rewrite Hq.
  f_equal; apply to_byte_uint; subst val; arith.
Qed.

(** Induction on byte sequences by groups of three. *)
Lemma bytes_ind3 (P : bytes -> Prop) :
  P [] -> (forall a, P [a]) -> (forall a b, P [a; b]) ->
  (forall a b c l, P l -> P (a :: b :: c :: l)) ->
  forall l, P l.
Proof.
  intros H0 H1 H2 H3 l.
  assert (Hall : P l /\ (forall a, P (a :: l)) /\ (forall a b, P (a :: b :: l))).
  { induction l as [|c l (IH0 & IH1 & IH2)]; repeat split; auto. }
  apply Hall.
Qed.

(** Decoding undoes encoding. *)
Lemma decodeFrom_Encode (src : bytes) :
  decodeFrom (Encode src) [] = Some src.
Proof.
  induction src as [|b0|b0 b1|b0 b1 b2 src IH] using bytes_ind3.
  - reflexivity.
  - cbn [Encode]. rewrite decodeFrom_pad2 by apply sextet_lt.
    f_equal. apply quantum1.
  - cbn [Encode]. rewrite decodeFrom_pad1 by apply sextet_lt.
    f_equal. apply quantum2.
  - cbn [Encode]. rewrite decodeFrom_quantum by apply sextet_lt.
    rewrite IH. cbn [fmap option_fmap option_map]. f_equal.
    rewrite quantum3. reflexivity.
Qed.

Local Open Scope nat_scope.

(** *** Line breaks inside base64 text *)

Lemma isNewline_decodeMap (c : byte) : isNewline c = true -> decodeMap c = 255%N.
Proof.
  unfold isNewline. intros Hc. apply orb_true_iff in Hc.
  destruct Hc as [Hc|Hc]; apply Ascii.eqb_eq in Hc; subst c; reflexivity.
Qed.

Lemma skipNewlines_strip (src : bytes) : skipNewlines (strip src) = strip src.
Proof.
  induction src as [|c src IH]; [reflexivity|].
  cbn [strip List.filter]. destruct (isNewline c) eqn:Hc; cbn [negb].
  - exact IH.
  - cbn [skipNewlines]. fold (isNewline c). now rewrite Hc.
Qed.

Lemma strip_skipNewlines (src : bytes) : strip (skipNewlines src) = strip src.
Proof.
  induction src as [|c src IH]; [reflexivity|].
  cbn [skipNewlines]. fold (isNewline c).
  destruct (isNewline c) eqn:Hc.
  - rewrite IH. cbn [strip List.filter]. now rewrite Hc.
  - reflexivity.
Qed.

Lemma skipNewlines_head (src : bytes) (c : byte) (rest : bytes) :
  skipNewlines src = c :: rest -> isNewline c = false.
Proof.
  induction src as [|x src IH]; [discriminate|].
  cbn [skipNewlines]. fold (isNewline x).
  destruct (isNewline x) eqn:Hx; [exact IH|].
  intros [= <- <-]. exact Hx.
Qed.

(** What [decodeQuantum] does after a padding character, on a text
    and on the same text without line breaks. *)
Lemma skipNewlines_shape (src : bytes) :
  match skipNewlines src with
  | [] => strip src = []
  | c :: rest => isNewline c = false /\ strip src = c :: strip rest
  end.
Proof.
  destruct (skipNewlines src) as [|c rest] eqn:Hs.
  - rewrite <- strip_skipNewlines, Hs. reflexivity.
  - pose proof (skipNewlines_head _ _ _ Hs) as Hc. split; [exact Hc|].
    rewrite <- strip_skipNewlines, Hs. cbn [strip List.filter].
    now rewrite Hc.
Qed.

(** [Decode] does not see line breaks. *)
Lemma decodeFrom_strip (src : bytes) (dbuf : list N) :
  decodeFrom src dbuf = decodeFrom (strip src) dbuf.
Proof.
  revert dbuf. induction src as [|c src IH]; intros dbuf; [reflexivity|].
  cbn [strip List.filter]. destruct (isNewline c) eqn:Hc; cbn [negb].
  - cbn [decodeFrom]. rewrite (isNewline_decodeMap c Hc). cbn.
    fold (isNewline c). rewrite Hc. apply IH.
  - fold (strip src). cbn [decodeFrom]. fold (isNewline c). rewrite Hc.
    destruct (negb (decodeMap c =? 255)%N).
    + destruct (length (dbuf ++ [decodeMap c]) =? 4); now rewrite IH.
    + destruct (negb (byte_eqb c padChar)); [reflexivity|].
      destruct (length dbuf) as [|[|[|[|n]]]]; try reflexivity.
      * rewrite skipNewlines_strip.
        pose proof (skipNewlines_shape src) as Hsh.
        destruct (skipNewlines src) as [|c2 rest].
        -- now rewrite Hsh.
        -- destruct Hsh as [_ ->].
           destruct (negb (byte_eqb c2 padChar)); [reflexivity|].
           rewrite skipNewlines_strip.
           pose proof (skipNewlines_shape rest) as Hsh'.
           destruct (skipNewlines rest) as [|c3 rest'].
           ++ now rewrite Hsh'.
           ++ now destruct Hsh' as [_ ->].
      * rewrite skipNewlines_strip.
        pose proof (skipNewlines_shape src) as Hsh.
        destruct (skipNewlines src) as [|c2 rest].
        -- now rewrite Hsh.
        -- now destruct Hsh as [_ ->].
Qed.

End Base64Facts.

(** ** PEM *)
Module PemFacts.
Import Base64Facts.

(** *** Writes to the line breaker *)

(** Fuel beyond the length of the slice changes nothing. *)
Lemma lineBreaker_write_fuel (f1 f2 : nat) (l : Pem.lineBreaker) (b : bytes) :
  length (Pem.line l) < Pem.pemLineLength ->
  length b < f1 -> length b < f2 ->
  Pem.lineBreaker_write f1 l b = Pem.lineBreaker_write f2 l b.
Proof.
  unfold Pem.pemLineLength.
  revert f2 l b. induction f1 as [|f1 IH]; intros f2 l b Hl H1 H2; [lia|].
  destruct f2 as [|f2]; [lia|]. cbn [Pem.lineBreaker_write].
  unfold Pem.pemLineLength.
  destruct (Nat.ltb_spec (length (Pem.line l) + length b) 64); [reflexivity|].
  apply IH; cbn [Pem.line length]; try lia; rewrite length_drop; lia.
Qed.

Lemma lineBreaker_write_S (fuel : nat) (l : Pem.lineBreaker) (b : bytes) :
  Pem.lineBreaker_write (S fuel) l b =
    if length (Pem.line l) + length b <? 64
    then {| Pem.line := Pem.line l ++ b; Pem.out := Pem.out l |}
    else Pem.lineBreaker_write fuel
           {| Pem.line := [];
              Pem.out := Pem.out l ++ Pem.line l
                           ++ take (64 - length (Pem.line l)) b ++ [nl] |}
           (drop (64 - length (Pem.line l)) b).
Proof. reflexivity. Qed.

Lemma lineBreaker_write_app (n : nat) :
  forall (l : Pem.lineBreaker) (a b : bytes) (f1 f2 f3 : nat),
    length a = n -> length (Pem.line l) < 64 ->
    length a < f1 -> length b < f2 -> length (a ++ b) < f3 ->
    Pem.lineBreaker_write f2 (Pem.lineBreaker_write f1 l a) b
    = Pem.lineBreaker_write f3 l (a ++ b).
Proof.
  induction n as [n IH] using lt_wf_ind.
  intros l a b f1 f2 f3 Hn Hl H1 H2 H3.
  destruct f1 as [|f1]; [lia|]. destruct f3 as [|f3]; [lia|].
  rewrite (lineBreaker_write_S f1 l a), (lineBreaker_write_S f3 l (a ++ b)).
  rewrite length_app in *.
  destruct (Nat.ltb_spec (length (Pem.line l) + length a) 64) as [Ha|Ha].
  - destruct f2 as [|f2]; [lia|]. rewrite lineBreaker_write_S.
    cbn [Pem.line Pem.out]. rewrite length_app.
    destruct (Nat.ltb_spec (length (Pem.line l) + length a + length b) 64)
      as [Hb|Hb];
      destruct (Nat.ltb_spec (length (Pem.line l) + (length a + length b)) 64);
      try lia.
    + now rewrite <- app_assoc.
    + replace (64 - length (Pem.line l))
        with (length a + (64 - (length (Pem.line l) + length a))) by lia.
      rewrite take_app_add, drop_app_add, <- !app_assoc.
      apply lineBreaker_write_fuel; unfold Pem.pemLineLength;
        cbn [Pem.line length]; try lia; rewrite length_drop; lia.
  - destruct (Nat.ltb_spec (length (Pem.line l) + (length a + length b)) 64);
      [lia|].
    rewrite take_app_le, drop_app_le by lia.
    apply (IH (length (drop (64 - length (Pem.line l)) a))).
    + rewrite length_drop. lia.
    + reflexivity.
    + cbn. lia.
    + rewrite length_drop. lia.
    + assumption.
    + rewrite length_app, length_drop. lia.
Qed.

(** The breaker does not see how the stream is cut into writes. *)
Lemma lineBreaker_Write_app (l : Pem.lineBreaker) (a b : bytes) :
  length (Pem.line l) < Pem.pemLineLength ->
  Pem.lineBreaker_Write (Pem.lineBreaker_Write l a) b
  = Pem.lineBreaker_Write l (a ++ b).
Proof.
  intros Hl. unfold Pem.lineBreaker_Write.
  apply (lineBreaker_write_app (length a)); auto.
Qed.

(** A write leaves less than a full line in the buffer. *)
Lemma lineBreaker_Write_line (l : Pem.lineBreaker) (b : bytes) :
  length (Pem.line l) < Pem.pemLineLength ->
  length (Pem.line (Pem.lineBreaker_Write l b)) < Pem.pemLineLength.
Proof.
  unfold Pem.lineBreaker_Write, Pem.pemLineLength.
  generalize (S (length b)) as fuel.
  intros fuel. revert l b.
  induction fuel as [|fuel IH]; intros l b Hl; [exact Hl|].
  rewrite lineBreaker_write_S.
  destruct (Nat.ltb_spec (length (Pem.line l) + length b) 64).
  - cbn [Pem.line]. rewrite length_app. lia.
  - apply IH. cbn. lia.
Qed.

(** *** The fuel of the decoder never runs out *)

Lemma getLine_shorter (data : bytes) :
  data <> [] -> length (Pem.getLine data).2 < length data.
Proof.
  intros Hne. unfold Pem.getLine.
  destruct (Bytes.IndexByte data nl) as [i|]; cbn [snd].
  - rewrite length_drop. destruct data; [congruence|cbn [length]; lia].
  - destruct data; [congruence|cbn [length]; lia].
Qed.

Lemma readHeaders_fuel (f1 f2 : nat) (rest : bytes) (hs : list (bytes * bytes)) :
  length rest <= f1 -> length rest <= f2 ->
  Pem.readHeaders f1 rest hs = Pem.readHeaders f2 rest hs.
Proof.
  revert f2 rest hs. induction f1 as [|f1 IH]; intros f2 rest hs H1 H2.
  - destruct rest; [now destruct f2|cbn [length] in H1; lia].
  - destruct rest as [|c rest]; [now destruct f2|].
    destruct f2 as [|f2]; [cbn [length] in H2; lia|].
    cbn [Pem.readHeaders].
    pose proof (getLine_shorter (c :: rest) ltac:(discriminate)) as Hlt.
    destruct (Pem.getLine (c :: rest)) as [line next]. cbn [snd] in Hlt.
    destruct (Bytes.IndexByte line Pem.colon); [|reflexivity].
    apply IH; lia.
Qed.

Lemma readHeaders_shorter (fuel : nat) (rest : bytes)
    (hs hs' : list (bytes * bytes)) (rest' : bytes) :
  Pem.readHeaders fuel rest hs = Some (hs', rest') ->
  length rest' <= length rest.
Proof.
  revert rest hs. induction fuel as [|fuel IH]; intros rest hs;
    destruct rest as [|c rest]; cbn [Pem.readHeaders]; try discriminate.
  all: pose proof (getLine_shorter (c :: rest) ltac:(discriminate)) as Hlt.
  all: destruct (Pem.getLine (c :: rest)) as [line next]; cbn [snd] in Hlt.
  all: destruct (Bytes.IndexByte line Pem.colon); try discriminate.
  all: try (intros [= <- <-]; lia).
  intros Hr. apply IH in Hr. lia.
Qed.

Lemma afterStart_shorter (rest rest1 : bytes) :
  Pem.afterStart rest = Some rest1 -> length rest1 < length rest.
Proof.
  unfold Pem.afterStart.
  destruct rest as [|c rest]; [discriminate|].
  destruct (Bytes.HasPrefix (c :: rest) (drop 1 Pem.pemStart)).
  - intros [= <-]. rewrite length_drop. cbn. lia.
  - destruct (Bytes.Index (c :: rest) Pem.pemStart); [|discriminate].
    intros [= <-]. rewrite length_drop. cbn. lia.
Qed.

Lemma decodeAt_shorter (rest1 rest' : bytes) :
  Pem.decodeAt rest1 = inr rest' -> length rest' <= length rest1.
Proof.
  unfold Pem.decodeAt.
  assert (Hline : length (Pem.getLine rest1).2 <= length rest1).
  { destruct rest1 as [|c rest1]; [reflexivity|].
    pose proof (getLine_shorter (c :: rest1) ltac:(discriminate)). lia. }
  destruct (Pem.getLine rest1) as [typeLine rest2]. cbn [snd] in Hline.
  destruct (negb _); [intros [= <-]; exact Hline|].
  destruct (Pem.readHeaders _ rest2 []) as [[hs rest]|] eqn:Hh; [|discriminate].
  apply readHeaders_shorter in Hh.
  repeat match goal with
         | |- context [match ?x with _ => _ end] => destruct x
         | |- context [if ?x then _ else _] => destruct x
         end;
    try discriminate; intros [= <-]; lia.
Qed.

Lemma decodeLoop_fuel (f1 f2 : nat) (data rest : bytes) :
  length rest < f1 -> length rest < f2 ->
  Pem.decodeLoop f1 data rest = Pem.decodeLoop f2 data rest.
Proof.
  revert f2 rest. induction f1 as [|f1 IH]; intros f2 rest H1 H2; [lia|].
  destruct f2 as [|f2]; [lia|]. cbn [Pem.decodeLoop].
  destruct (Pem.afterStart rest) as [rest1|] eqn:Hs; [|reflexivity].
  apply afterStart_shorter in Hs.
  destruct (Pem.decodeAt rest1) as [[[p rest']|]|rest'] eqn:Hd; try reflexivity.
  apply decodeAt_shorter in Hd. apply IH; lia.
Qed.

(** [Decode] with more fuel is [Decode]. *)
Lemma Decode_fuel (fuel : nat) (data : bytes) :
  length data < fuel -> Pem.decodeLoop fuel data data = Pem.Decode data.
Proof. intros Hf. apply decodeLoop_fuel; [assumption|lia]. Qed.

(** *** The characters of base64 text *)

(** A test that holds of the 65 characters holds of any text character. *)
Lemma Text_elim (Q : byte -> bool) (c : byte) :
  forallb Q textChars = true -> Text c -> Q c = true.
Proof.
  intros HQ Hc. unfold Text, isText in Hc.
  apply existsb_exists in Hc. destruct Hc as (x & Hx & Hcx).
  apply Ascii.eqb_eq in Hcx. subst x.
  rewrite forallb_forall in HQ. auto.
Qed.

Lemma Text_neq (c x : byte) : Text c -> isText x = false -> c <> x.
Proof. intros Hc Hx ->. unfold Text in Hc. congruence. Qed.

Lemma Text_not_newline (c : byte) : Text c -> isNewline c = false.
Proof.
  intros Hc. apply negb_true_iff.
  apply (Text_elim (fun c => negb (isNewline c))); [reflexivity|assumption].
Qed.

Lemma encode_Text (i : N) : (i < 64)%N -> Text (Base64.encode i).
Proof.
  intros Hi.
  assert (Hall : forallb (fun n => isText (Base64.encode (N.of_nat n))) (seq 0 64) = true)
    by (vm_compute; reflexivity).
  rewrite forallb_forall in Hall.
  specialize (Hall (N.to_nat i)). rewrite N2Nat.id in Hall.
  apply Hall, in_seq. lia.
Qed.

Lemma Encode_Text (src : bytes) : Forall Text (Base64.Encode src).
Proof.
  induction src as [|b0|b0 b1|b0 b1 b2 src IH] using bytes_ind3;
    cbn [Base64.Encode]; repeat constructor;
    try (apply encode_Text, sextet_lt); try reflexivity; assumption.
Qed.

Lemma strip_Text (s : bytes) : Forall Text s -> strip s = s.
Proof.
  induction 1 as [|c s Hc _ IH]; [reflexivity|].
  cbn [strip List.filter]. rewrite (Text_not_newline c Hc). cbn [negb].
  fold (strip s). now rewrite IH.
Qed.

Lemma strip_app (a b : bytes) : strip (a ++ b) = strip a ++ strip b.
Proof. apply List.filter_app. Qed.

(** *** The line breaker *)

Lemma lineBreaker_Broken (fuel : nat) (s o : bytes) :
  length s < fuel ->
  exists body,
    Pem.lineBreaker_Close (Pem.lineBreaker_write fuel {| Pem.line := []; Pem.out := o |} s)
    = o ++ body /\ Broken s body.
Proof.
  revert s o. induction fuel as [|fuel IH]; intros s o Hfuel; [lia|].
  cbn [Pem.lineBreaker_write Pem.line Pem.out length Nat.add app].
  unfold Pem.pemLineLength.
  destruct (Nat.ltb_spec (length s) 64) as [Hlt|Hge].
  - unfold Pem.lineBreaker_Close. cbn [Pem.line Pem.out].
    destruct s as [|c s].
    + exists []. cbn. rewrite app_nil_r. split; [reflexivity|constructor].
    + exists ((c :: s) ++ [nl]). split; [reflexivity|].
      apply Broken_last. cbn [length] in *. lia.
  - cbn [Nat.sub].
    destruct (IH (drop 64 s) (o ++ take 64 s ++ [nl])) as (body & Hb & HB).
    { rewrite length_drop. lia. }
    exists (take 64 s ++ nl :: body). split.
    + rewrite Hb, <- !app_assoc. reflexivity.
    + rewrite <- (take_drop 64 s) at 1.
      apply Broken_line; [|assumption].
      rewrite length_take. lia.
Qed.

(** *** Searching bytes *)

Lemma byte_eqb_neq (a b : byte) : a <> b -> byte_eqb a b = false.
Proof. intros Hab. now apply Ascii.eqb_neq. Qed.

Lemma byte_eqb_refl (a : byte) : byte_eqb a a = true.
Proof. apply Ascii.eqb_refl. Qed.

Lemma IndexByte_app (pre post : bytes) (c : byte) :
  Forall (fun x => x <> c) pre ->
  Bytes.IndexByte (pre ++ c :: post) c = Some (length pre).
Proof.
  induction 1 as [|x pre Hx _ IH]; cbn [app Bytes.IndexByte length].
  - now rewrite byte_eqb_refl.
  - rewrite (byte_eqb_neq x c Hx), IH. reflexivity.
Qed.

Lemma IndexByte_None (s : bytes) (c : byte) :
  Forall (fun x => x <> c) s -> Bytes.IndexByte s c = None.
Proof.
  induction 1 as [|x s Hx _ IH]; cbn [Bytes.IndexByte]; [reflexivity|].
  rewrite (byte_eqb_neq x c Hx), IH. reflexivity.
Qed.

Lemma TrimRight_Forall (P : byte -> Prop) (s cutset : bytes) :
  Forall P s -> Forall P (Bytes.TrimRight s cutset).
Proof.
  induction 1 as [|x s Hx _ IH]; cbn [Bytes.TrimRight]; [constructor|].
  destruct (Bytes.TrimRight s cutset) as [|y t].
  - destruct (existsb (byte_eqb x) cutset); repeat constructor; assumption.
  - constructor; assumption.
Qed.

Lemma HasPrefix_app (p s : bytes) : Bytes.HasPrefix (p ++ s) p = true.
Proof.
  induction p as [|c p IH]; [now destruct s|].
  cbn [app Bytes.HasPrefix]. now rewrite byte_eqb_refl, IH.
Qed.

(** The END marker is found right after a text that holds no dash and
    does not end in a line feed. *)
Lemma Index_pemEnd (pre post : bytes) :
  Forall (fun c => c <> dash) pre -> last pre <> Some nl ->
  Bytes.Index (pre ++ Pem.pemEnd ++ post) Pem.pemEnd = Some (length pre).
Proof.
  intros Hpre. induction Hpre as [|c pre Hc Hpre IH]; intros Hlast.
  - cbn [app length]. destruct (Pem.pemEnd ++ post) eqn:E;
      cbn [Bytes.Index]; rewrite <- E, HasPrefix_app; reflexivity.
  - cbn [app length Bytes.Index].
    assert (Hno : Bytes.HasPrefix (c :: pre ++ Pem.pemEnd ++ post) Pem.pemEnd
                  = false).
    { unfold Pem.pemEnd at 2. cbn [Bytes.HasPrefix].
      destruct (Ascii.eqb_spec c nl) as [->|Hcn];
        [|now rewrite (byte_eqb_neq c nl Hcn)].
      rewrite byte_eqb_refl. cbn [andb].
      destruct pre as [|d pre].
      - now elim Hlast.
      - apply Forall_cons in Hpre. destruct Hpre as [Hd _].
        cbn [app bytes_of_string list_ascii_of_string Bytes.HasPrefix].
        fold dash. now rewrite (byte_eqb_neq d dash Hd). }
    rewrite Hno, IH; [reflexivity|].
    destruct pre as [|d pre]; [discriminate|]. exact Hlast.
Qed.

(** *** The shape of a broken base64 text *)

Lemma Broken_nil_inv (body : bytes) : Broken [] body -> body = [].
Proof.
  inversion 1 as [|s Hlen|chunk rest body0 Hlen _ Hnil]; subst.
  - reflexivity.
  - cbn in Hlen. lia.
  - destruct chunk; [cbn in Hlen; lia|discriminate].
Qed.

(** The text [s ++ [nl]] in the two ways the decoder looks at it. *)
Lemma last_line_shape (s : bytes) :
  Forall Text s -> s <> [] ->
  (exists pre z, s ++ [nl] = pre ++ [z; nl] /\ Text z /\
                 strip (pre ++ [z]) = s /\ Forall Line pre) /\
  (exists c chunk tail, s ++ [nl] = c :: chunk ++ nl :: tail /\
                        Forall Text (c :: chunk)).
Proof.
  intros Hs Hne. split.
  - destruct (exists_last Hne) as (pre & z & ->).
    apply Forall_app in Hs. destruct Hs as [Hpre Hz].
    apply Forall_cons in Hz. destruct Hz as [Hz _].
    exists pre, z. rewrite <- app_assoc. split; [reflexivity|].
    split; [assumption|]. split.
    + apply strip_Text, Forall_app. split; [assumption|]. now constructor.
    + eapply Forall_impl; [exact Hpre|]. intros c Hc. now left.
  - destruct s as [|c chunk]; [congruence|].
    exists c, chunk, []. split; [reflexivity|assumption].
Qed.

Lemma Broken_shape (s body : bytes) :
  Broken s body -> Forall Text s -> s <> [] ->
  (exists pre z, body = pre ++ [z; nl] /\ Text z /\
                 strip (pre ++ [z]) = s /\ Forall Line pre) /\
  (exists c chunk tail, body = c :: chunk ++ nl :: tail /\
                        Forall Text (c :: chunk)).
Proof.
  induction 1 as [|s Hlen|chunk rest body Hlen HB IH]; intros Hs Hne.
  - congruence.
  - now apply last_line_shape.
  - apply Forall_app in Hs. destruct Hs as [Hchunk Hrest].
    assert (Hcne : chunk <> []) by (destruct chunk; [cbn in Hlen; lia|discriminate]).
    destruct rest as [|r rest].
    + apply Broken_nil_inv in HB. subst body. rewrite app_nil_r.
      now apply last_line_shape.
    + destruct IH as [(pre & z & -> & Hz & Hstrip & Hpre) _];
        [assumption|discriminate|]. split.
      * exists (chunk ++ nl :: pre), z. split; [now rewrite <- app_assoc|].
        split; [assumption|]. split.
        -- rewrite <- app_assoc, strip_app. cbn [app].
           change (strip (nl :: pre ++ [z])) with (strip (pre ++ [z])).
           now rewrite Hstrip, strip_Text.
        -- apply Forall_app. split.
           ++ eapply Forall_impl; [exact Hchunk|]. intros c Hc. now left.
           ++ constructor; [now right|assumption].
      * destruct chunk as [|c chunk]; [congruence|].
        exists c, chunk, (pre ++ [z; nl]). split; [reflexivity|assumption].
Qed.

(** *** Decoding an encoded block *)

Lemma afterStart_BEGIN (rest1 : bytes) :
  Pem.afterStart (bytes_of_string "-----BEGIN " ++ rest1) = Some rest1.
Proof.
  unfold Pem.afterStart.
  change (drop 1 Pem.pemStart) with (bytes_of_string "-----BEGIN ").
  rewrite HasPrefix_app. reflexivity.
Qed.

Lemma Encode_nonempty (b0 : byte) (b : bytes) : Base64.Encode (b0 :: b) <> [].
Proof. destruct b as [|b1 [|b2 b]]; discriminate. Qed.

Lemma Text_Forall_neq (l : bytes) (x : byte) :
  isText x = false -> Forall Text l -> Forall (fun c => c <> x) l.
Proof.
  intros Hx Hl. eapply Forall_impl; [exact Hl|].
  intros c Hc. now apply Text_neq.
Qed.

(** The first line of a base64 text is base64 text. *)
Lemma getLine_text (c : byte) (chunk tail : bytes) :
  Forall Text (c :: chunk) ->
  Forall Text (Pem.getLine (c :: chunk ++ nl :: tail)).1.
Proof.
  intros Hchunk. unfold Pem.getLine.
  change (c :: chunk ++ nl :: tail) with ((c :: chunk) ++ nl :: tail).
  rewrite IndexByte_app by (apply Text_Forall_neq; [reflexivity|assumption]).
  cbn [fst]. apply TrimRight_Forall.
  match goal with
  | |- Forall Text (take ?i _) =>
      assert (Hi : i <= length (c :: chunk)) by (destruct (_ && _); lia)
  end.
  rewrite take_app_le by exact Hi. now apply Forall_take.
Qed.

(** A first line of base64 text is no header line. *)
Lemma readHeaders_text (fuel : nat) (c : byte) (chunk tail : bytes) :
  Forall Text (c :: chunk) ->
  Pem.readHeaders fuel (c :: chunk ++ nl :: tail) []
  = Some ([], c :: chunk ++ nl :: tail).
Proof.
  intros Hchunk.
  pose proof (getLine_text c chunk tail Hchunk) as Hline.
  destruct fuel; cbn [Pem.readHeaders];
    destruct (Pem.getLine (c :: chunk ++ nl :: tail)) as [line next];
    cbn [fst] in Hline;
    rewrite IndexByte_None
      by (apply Text_Forall_neq; [reflexivity|assumption]);
    reflexivity.
Qed.

Lemma typeLine_snoc (ty : string) :
  typeLine ty = (bytes_of_string ty ++ bytes_of_string "----") ++ [dash].
Proof. unfold typeLine. now rewrite <- app_assoc. Qed.

Lemma typeLine_no_nl (ty : string) :
  TypeOk ty -> Forall (fun c => c <> nl) (typeLine ty).
Proof.
  intros Hty. apply Forall_app. split.
  - eapply Forall_impl; [exact Hty|]. now intros c [Hc _].
  - repeat constructor; discriminate.
Qed.

Lemma typeLine_no_colon (ty : string) :
  TypeOk ty -> Forall (fun c => c <> Pem.colon) (typeLine ty).
Proof.
  intros Hty. apply Forall_app. split.
  - eapply Forall_impl; [exact Hty|]. now intros c [_ Hc].
  - repeat constructor; discriminate.
Qed.

Lemma TrimRight_snoc (l cutset : bytes) (c : byte) :
  existsb (byte_eqb c) cutset = false ->
  Bytes.TrimRight (l ++ [c]) cutset = l ++ [c].
Proof.
  intros Hc. induction l as [|x l IH]; cbn [app Bytes.TrimRight].
  - now rewrite Hc.
  - rewrite IH. now destruct l.
Qed.

Lemma nth_snoc_app (l r : bytes) (c d : byte) :
  nth (length (l ++ [c]) - 1) ((l ++ [c]) ++ r) d = c.
Proof.
  rewrite length_app. cbn [length].
  replace (length l + 1 - 1) with (length l) by lia.
  rewrite <- app_assoc. rewrite app_nth2 by lia.
  now rewrite Nat.sub_diag.
Qed.

(** A line that ends in a dash is read whole. *)
Lemma getLine_dash (l rest : bytes) :
  Forall (fun c => c <> nl) (l ++ [dash]) ->
  Pem.getLine ((l ++ [dash]) ++ nl :: rest) = (l ++ [dash], rest).
Proof.
  intros Hl. unfold Pem.getLine. rewrite IndexByte_app by assumption.
  rewrite nth_snoc_app. change (byte_eqb dash cr) with false.
  rewrite andb_false_r, take_app_length, TrimRight_snoc by reflexivity.
  f_equal. rewrite drop_app_add'; [reflexivity|]. reflexivity.
Qed.

Lemma getLine_typeLine (ty : string) (rest : bytes) :
  TypeOk ty ->
  Pem.getLine (typeLine ty ++ nl :: rest) = (typeLine ty, rest).
Proof.
  intros Hty. pose proof (typeLine_no_nl ty Hty) as Hnl.
  rewrite typeLine_snoc in *. now apply getLine_dash.
Qed.

Lemma HasSuffix_app (s suffix : bytes) :
  Bytes.HasSuffix (s ++ suffix) suffix = true.
Proof.
  unfold Bytes.HasSuffix, Bytes.Equal. rewrite length_app.
  apply andb_true_iff. split.
  - apply Nat.leb_le. lia.
  - replace (length s + length suffix - length suffix) with (length s) by lia.
    rewrite drop_app_length. now apply bool_decide_eq_true.
Qed.

Lemma getLine_last_line (l : bytes) :
  Forall (fun c => c <> nl) l -> (Pem.getLine (l ++ [nl])).2 = [].
Proof.
  intros Hl. unfold Pem.getLine. rewrite IndexByte_app by assumption.
  cbn [snd]. rewrite drop_app_add'; reflexivity.
Qed.

(** A broken base64 text holds no blank. *)
Lemma removeSpacesAndTabs_lines (l : bytes) :
  Forall Line l -> Pem.removeSpacesAndTabs l = l.
Proof.
  intros Hl. unfold Pem.removeSpacesAndTabs.
  assert (Hno : Bytes.ContainsAny l [sp; tab] = false).
  { unfold Bytes.ContainsAny. apply not_true_iff_false.
    intros Hex. apply existsb_exists in Hex.
    destruct Hex as (x & Hx & Hcut).
    rewrite Forall_forall in Hl.
    destruct (Hl x (proj2 (list_elem_of_In _ _) Hx)) as [HT| ->];
      [|discriminate].
    apply (Text_elim (fun c => negb (existsb (byte_eqb c) [sp; tab]))) in HT;
      [|reflexivity].
    rewrite Hcut in HT. discriminate. }
  now rewrite Hno.
Qed.

(** The END line of an empty block is no header line. *)
Lemma readHeaders_END (fuel : nat) (ty : string) :
  TypeOk ty ->
  Pem.readHeaders fuel (drop 1 Pem.pemEnd ++ endLine ty) []
  = Some ([], drop 1 Pem.pemEnd ++ endLine ty).
Proof.
  intros Hty.
  assert (Hline : Pem.getLine (drop 1 Pem.pemEnd ++ endLine ty)
                  = (drop 1 Pem.pemEnd ++ typeLine ty, [])).
  { unfold endLine. rewrite typeLine_snoc, !app_assoc.
    rewrite getLine_dash; [reflexivity|].
    rewrite <- !app_assoc. apply Forall_app. split.
    - repeat constructor; discriminate.
    - rewrite app_assoc, <- typeLine_snoc. now apply typeLine_no_nl. }
  assert (Hcolon : Bytes.IndexByte (drop 1 Pem.pemEnd ++ typeLine ty) Pem.colon
                   = None).
  { apply IndexByte_None, Forall_app. split.
    - repeat constructor; discriminate.
    - now apply typeLine_no_colon. }
  destruct fuel; cbn [drop Pem.pemEnd app bytes_of_string
                      list_ascii_of_string Pem.readHeaders];
    cbn [drop Pem.pemEnd app bytes_of_string list_ascii_of_string] in Hline;
    rewrite Hline; cbn [drop Pem.pemEnd app bytes_of_string
                        list_ascii_of_string] in Hcolon;
    rewrite Hcolon; reflexivity.
Qed.

Lemma decodeAt_Encode (ty : string) (b body : bytes) :
  TypeOk ty ->
  Broken (Base64.Encode b) body ->
  Pem.decodeAt (typeLine ty ++ nl :: body ++ drop 1 Pem.pemEnd ++ endLine ty)
  = inl (Some ({| Pem.Type' := ty; Pem.Headers := []; Pem.Bytes := b |}, [])).
Proof.
  intros Hty HB.
  unfold Pem.decodeAt. rewrite getLine_typeLine by assumption.
  unfold typeLine at 1. rewrite HasSuffix_app. cbn [negb].
  replace (take (length (typeLine ty) - length Pem.pemEndOfLine) (typeLine ty))
    with (bytes_of_string ty)
    by (unfold typeLine; rewrite length_app, Nat.add_sub, take_app_length;
        reflexivity).
  set (rest := body ++ drop 1 Pem.pemEnd ++ endLine ty).
  assert (Hfound : exists n k body',
    Pem.readHeaders (length rest) rest [] = Some ([], rest) /\
    (if (length (@nil (bytes * bytes)) =? 0)
        && Bytes.HasPrefix rest (drop 1 Pem.pemEnd)
     then Some (0, length Pem.pemEnd - 1)
     else match Bytes.Index rest Pem.pemEnd with
          | Some i => Some (i, i + length Pem.pemEnd)
          | None => None
          end) = Some (n, k) /\
    drop k rest = endLine ty /\
    take n rest = body' /\
    (Pem.getLine (drop (n + length Pem.pemEnd - 1) rest)).2 = [] /\
    Pem.removeSpacesAndTabs body' = body' /\
    Base64.Decode body' = Some b).
  { destruct b as [|b0 b].
    - apply Broken_nil_inv in HB. subst body rest. cbn [app].
      exists 0, 9, []. rewrite readHeaders_END by assumption.
      rewrite HasPrefix_app.
      repeat split; try reflexivity.
      change (drop (0 + length Pem.pemEnd - 1) (drop 1 Pem.pemEnd ++ endLine ty))
        with (endLine ty).
      apply getLine_last_line. now apply typeLine_no_nl.
    - destruct (Broken_shape _ _ HB (Encode_Text (b0 :: b))
                  (Encode_nonempty b0 b))
        as [(pre & z & Hbody & Hz & Hstrip & Hpre)
            (c & chunk & tail & Hfirst & Hchunk)].
      assert (Hrest1 : rest = c :: chunk ++ nl
                              :: (tail ++ drop 1 Pem.pemEnd ++ endLine ty)).
      { subst rest. rewrite Hfirst. cbn [app]. now rewrite <- app_assoc. }
      assert (Hrest2 : rest = (pre ++ [z]) ++ Pem.pemEnd ++ endLine ty).
      { subst rest. rewrite Hbody, <- !app_assoc. reflexivity. }
      assert (HP : Bytes.HasPrefix rest (drop 1 Pem.pemEnd) = false).
      { rewrite Hrest1. apply Forall_cons in Hchunk. destruct Hchunk as [Hc _].
        cbn. fold dash.
        now rewrite (byte_eqb_neq c dash (Text_neq c dash Hc eq_refl)). }
      assert (Hlines : Forall Line (pre ++ [z])).
      { apply Forall_app. split; [assumption|].
        constructor; [now left|constructor]. }
      assert (Hnodash : Forall (fun c => c <> dash) (pre ++ [z])).
      { eapply Forall_impl; [exact Hlines|]. intros x [Hx| ->].
        - now apply Text_neq.
        - discriminate. }
      assert (Hlast : last (pre ++ [z]) <> Some nl).
      { rewrite last_snoc. intros [= ->]. discriminate Hz. }
      exists (length (pre ++ [z])), (length (pre ++ [z]) + length Pem.pemEnd),
        (pre ++ [z]).
      split.
      { rewrite Hrest1 at 2 3. rewrite readHeaders_text by assumption.
        reflexivity. }
      rewrite HP, andb_false_r.
      rewrite Hrest2. rewrite Index_pemEnd by assumption.
      repeat split.
      + rewrite drop_app_add. reflexivity.
      + apply take_app_length.
      + replace (length (pre ++ [z]) + length Pem.pemEnd - 1)
          with (length (pre ++ [z]) + 9) by (cbn; lia).
        rewrite drop_app_add.
        change (drop 9 (Pem.pemEnd ++ endLine ty))
          with ((sp :: typeLine ty) ++ [nl]).
        apply getLine_last_line. constructor; [discriminate|].
        now apply typeLine_no_nl.
      + now apply removeSpacesAndTabs_lines.
      + unfold Base64.Decode.
        now rewrite decodeFrom_strip, Hstrip, decodeFrom_Encode. }
  destruct Hfound as (n & k & body' & -> & -> & -> & -> & -> & -> & ->).
  change (length Pem.pemEndOfLine) with 5.
  assert (Hlen : length (endLine ty) = length (bytes_of_string ty) + 5 + 1).
  { unfold endLine, typeLine. now rewrite !length_app. }
  destruct (Nat.ltb_spec (length (endLine ty)) (length (bytes_of_string ty) + 5));
    [lia|].
  replace (take (length (bytes_of_string ty) + 5) (endLine ty))
    with (typeLine ty)
    by (unfold endLine; rewrite take_app_length'; [reflexivity|];
        unfold typeLine; now rewrite length_app).
  replace (drop (length (bytes_of_string ty) + 5) (endLine ty)) with [nl]
    by (unfold endLine; rewrite drop_app_length'; [reflexivity|];
        unfold typeLine; now rewrite length_app).
  unfold typeLine at 1. rewrite HasPrefix_app.
  unfold typeLine at 1. rewrite HasSuffix_app.
  cbn [negb orb]. change (Pem.getLine [nl]) with (@nil byte, @nil byte).
  cbn [fst length Nat.eqb negb].
  unfold string_of_bytes, bytes_of_string.
  now rewrite string_of_list_ascii_of_string.
Qed.

(** Encoding a block without headers and decoding the text gives the
    block back and leaves nothing. *)
Lemma Decode_Encode (ty : string) (b : bytes) :
  TypeOk ty ->
  Pem.Decode (Pem.Encode ty b)
  = (Some {| Pem.Type' := ty; Pem.Headers := []; Pem.Bytes := b |}, []).
Proof.
  intros Hty.
  unfold Pem.Encode, Pem.lineBreaker_Write.
  match goal with
  | |- context [Pem.lineBreaker_write ?fuel {| Pem.line := []; Pem.out := ?o |} ?s] =>
      destruct (lineBreaker_Broken fuel s o) as (body & -> & HB); [lia|]
  end.
  unfold Pem.Decode. cbn [Pem.decodeLoop].
  match goal with
  | |- context [Pem.afterStart ?data] =>
      replace data with
        (bytes_of_string "-----BEGIN "
           ++ (typeLine ty ++ nl :: body ++ drop 1 Pem.pemEnd ++ endLine ty))
        by (unfold endLine, typeLine; cbn [drop Pem.pemStart Pem.pemEnd];
            rewrite <- ?app_assoc; reflexivity)
  end.
  rewrite afterStart_BEGIN.
  rewrite (decodeAt_Encode ty b body) by assumption.
  reflexivity.
Qed.

Lemma TypeOk_CERTIFICATE : TypeOk "CERTIFICATE".
Proof. repeat constructor; discriminate. Qed.

Lemma TypeOk_CERTIFICATE_REQUEST : TypeOk "CERTIFICATE REQUEST".
Proof. repeat constructor; discriminate. Qed.

(** *** A block between other bytes *)

Lemma getLine_line (l tail : bytes) :
  Forall (fun c => c <> nl) l -> (Pem.getLine (l ++ nl :: tail)).2 = tail.
Proof.
  intros Hl. unfold Pem.getLine. rewrite IndexByte_app by assumption.
  cbn [snd]. rewrite drop_app_add'; reflexivity.
Qed.

Lemma readHeaders_END_tail (fuel : nat) (ty : string) (tail : bytes) :
  TypeOk ty ->
  Pem.readHeaders fuel (drop 1 Pem.pemEnd ++ endLine ty ++ tail) []
  = Some ([], drop 1 Pem.pemEnd ++ endLine ty ++ tail).
Proof.
  intros Hty.
  assert (Hline : Pem.getLine (drop 1 Pem.pemEnd ++ endLine ty ++ tail)
                  = (drop 1 Pem.pemEnd ++ typeLine ty, tail)).
  { replace (drop 1 Pem.pemEnd ++ endLine ty ++ tail)
      with (((drop 1 Pem.pemEnd ++ bytes_of_string ty
                ++ bytes_of_string "----") ++ [dash]) ++ nl :: tail)
      by (unfold endLine; rewrite typeLine_snoc, <- !app_assoc; reflexivity).
    rewrite getLine_dash.
    - f_equal. rewrite typeLine_snoc, <- !app_assoc. reflexivity.
    - rewrite <- !app_assoc. apply Forall_app. split.
      + repeat constructor; discriminate.
      + rewrite app_assoc, <- typeLine_snoc. now apply typeLine_no_nl. }
  assert (Hcolon : Bytes.IndexByte (drop 1 Pem.pemEnd ++ typeLine ty) Pem.colon
                   = None).
  { apply IndexByte_None, Forall_app. split.
    - repeat constructor; discriminate.
    - now apply typeLine_no_colon. }
  destruct fuel; cbn [drop Pem.pemEnd app bytes_of_string
                      list_ascii_of_string Pem.readHeaders];
    cbn [drop Pem.pemEnd app bytes_of_string list_ascii_of_string] in Hline;
    rewrite Hline; cbn [drop Pem.pemEnd app bytes_of_string
                        list_ascii_of_string] in Hcolon;
    rewrite Hcolon; reflexivity.
Qed.

Lemma decodeAt_Encode_tail (ty : string) (b body tail : bytes) :
  TypeOk ty ->
  Broken (Base64.Encode b) body ->
  Pem.decodeAt (typeLine ty ++ nl :: body ++ drop 1 Pem.pemEnd
                  ++ endLine ty ++ tail)
  = inl (Some ({| Pem.Type' := ty; Pem.Headers := []; Pem.Bytes := b |},
               tail)).
Proof.
  intros Hty HB.
  unfold Pem.decodeAt. rewrite getLine_typeLine by assumption.
  unfold typeLine at 1. rewrite HasSuffix_app. cbn [negb].
  replace (take (length (typeLine ty) - length Pem.pemEndOfLine) (typeLine ty))
    with (bytes_of_string ty)
    by (unfold typeLine; rewrite length_app, Nat.add_sub, take_app_length;
        reflexivity).
  set (rest := body ++ drop 1 Pem.pemEnd ++ endLine ty ++ tail).
  assert (Hfound : exists n k body',
    Pem.readHeaders (length rest) rest [] = Some ([], rest) /\
    (if (length (@nil (bytes * bytes)) =? 0)
        && Bytes.HasPrefix rest (drop 1 Pem.pemEnd)
     then Some (0, length Pem.pemEnd - 1)
     else match Bytes.Index rest Pem.pemEnd with
          | Some i => Some (i, i + length Pem.pemEnd)
          | None => None
          end) = Some (n, k) /\
    drop k rest = endLine ty ++ tail /\
    take n rest = body' /\
    (Pem.getLine (drop (n + length Pem.pemEnd - 1) rest)).2 = tail /\
    Pem.removeSpacesAndTabs body' = body' /\
    Base64.Decode body' = Some b).
  { destruct b as [|b0 b].
    - apply Broken_nil_inv in HB. subst body rest. cbn [app].
      exists 0, 9, []. rewrite readHeaders_END_tail by assumption.
      rewrite HasPrefix_app.
      repeat split; try reflexivity.
      change (drop (0 + length Pem.pemEnd - 1)
                (drop 1 Pem.pemEnd ++ endLine ty ++ tail))
        with (endLine ty ++ tail).
      unfold endLine. rewrite <- app_assoc.
      apply getLine_line. now apply typeLine_no_nl.
    - destruct (Broken_shape _ _ HB (Encode_Text (b0 :: b))
                  (Encode_nonempty b0 b))
        as [(pre & z & Hbody & Hz & Hstrip & Hpre)
            (c & chunk & tl & Hfirst & Hchunk)].
      assert (Hrest1 : rest = c :: chunk ++ nl
                              :: (tl ++ drop 1 Pem.pemEnd ++ endLine ty ++ tail)).
      { subst rest. rewrite Hfirst. cbn [app]. now rewrite <- app_assoc. }
      assert (Hrest2 : rest = (pre ++ [z]) ++ Pem.pemEnd ++ endLine ty ++ tail).
      { subst rest. rewrite Hbody, <- !app_assoc. reflexivity. }
      assert (HP : Bytes.HasPrefix rest (drop 1 Pem.pemEnd) = false).
      { rewrite Hrest1. apply Forall_cons in Hchunk. destruct Hchunk as [Hc _].
        cbn. fold dash.
        now rewrite (byte_eqb_neq c dash (Text_neq c dash Hc eq_refl)). }
      assert (Hlines : Forall Line (pre ++ [z])).
      { apply Forall_app. split; [assumption|].
        constructor; [now left|constructor]. }
      assert (Hnodash : Forall (fun c => c <> dash) (pre ++ [z])).
      { eapply Forall_impl; [exact Hlines|]. intros x [Hx| ->].
        - now apply Text_neq.
        - discriminate. }
      assert (Hlast : last (pre ++ [z]) <> Some nl).
      { rewrite last_snoc. intros [= ->]. discriminate Hz. }
      exists (length (pre ++ [z])), (length (pre ++ [z]) + length Pem.pemEnd),
        (pre ++ [z]).
      split.
      { rewrite Hrest1 at 2 3. rewrite readHeaders_text by assumption.
        reflexivity. }
      rewrite HP, andb_false_r.
      rewrite Hrest2. rewrite Index_pemEnd by assumption.
      repeat split.
      + rewrite drop_app_add. reflexivity.
      + apply take_app_length.
      + replace (length (pre ++ [z]) + length Pem.pemEnd - 1)
          with (length (pre ++ [z]) + 9) by (cbn; lia).
        rewrite drop_app_add.
        replace (drop 9 (Pem.pemEnd ++ endLine ty ++ tail))
          with ((sp :: typeLine ty) ++ nl :: tail)
          by (unfold endLine; rewrite <- app_assoc; reflexivity).
        apply getLine_line. constructor; [discriminate|].
        now apply typeLine_no_nl.
      + now apply removeSpacesAndTabs_lines.
      + unfold Base64.Decode.
        now rewrite decodeFrom_strip, Hstrip, decodeFrom_Encode. }
  destruct Hfound as (n & k & body' & -> & -> & -> & -> & -> & -> & ->).
  change (length Pem.pemEndOfLine) with 5.
  assert (Hlen : length (endLine ty ++ tail)
                 = length (bytes_of_string ty) + 5 + 1 + length tail).
  { unfold endLine, typeLine. now rewrite !length_app. }
  destruct (Nat.ltb_spec (length (endLine ty ++ tail))
                         (length (bytes_of_string ty) + 5)); [lia|].
  assert (Htl : length (typeLine ty) = length (bytes_of_string ty) + 5)
    by (unfold typeLine; now rewrite length_app).
  replace (take (length (bytes_of_string ty) + 5) (endLine ty ++ tail))
    with (typeLine ty)
    by (unfold endLine; rewrite <- app_assoc, take_app_length';
        [reflexivity|now rewrite Htl]).
  replace (drop (length (bytes_of_string ty) + 5) (endLine ty ++ tail))
    with (nl :: tail)
    by (unfold endLine; rewrite <- app_assoc, drop_app_length';
        [reflexivity|now rewrite Htl]).
  unfold typeLine at 1. rewrite HasPrefix_app.
  unfold typeLine at 1. rewrite HasSuffix_app.
  cbn [negb orb].
  change (Pem.getLine (nl :: tail)) with (@nil byte, tail).
  cbn [fst length Nat.eqb negb].
  unfold string_of_bytes, bytes_of_string.
  now rewrite string_of_list_ascii_of_string.
Qed.

(** A block in PEM followed by any bytes decodes to the block and
    leaves those bytes. *)
Lemma Decode_Encode_tail (ty : string) (b tail : bytes) :
  TypeOk ty ->
  Pem.Decode (Pem.Encode ty b ++ tail)
  = (Some {| Pem.Type' := ty; Pem.Headers := []; Pem.Bytes := b |}, tail).
Proof.
  intros Hty.
  unfold Pem.Encode, Pem.lineBreaker_Write.
  match goal with
  | |- context [Pem.lineBreaker_write ?fuel {| Pem.line := []; Pem.out := ?o |} ?s] =>
      destruct (lineBreaker_Broken fuel s o) as (body & -> & HB); [lia|]
  end.
  unfold Pem.Decode. cbn [Pem.decodeLoop].
  match goal with
  | |- context [Pem.afterStart ?data] =>
      replace data with
        (bytes_of_string "-----BEGIN "
           ++ (typeLine ty ++ nl :: body ++ drop 1 Pem.pemEnd
                 ++ endLine ty ++ tail))
        by (unfold endLine, typeLine; cbn [drop Pem.pemStart Pem.pemEnd];
            rewrite <- ?app_assoc; reflexivity)
  end.
  rewrite afterStart_BEGIN.
  rewrite (decodeAt_Encode_tail ty b body tail) by assumption.
  reflexivity.
Qed.

Lemma Encode_nonempty_pem (ty : string) (b : bytes) : Pem.Encode ty b <> [].
Proof. unfold Pem.Encode. intros E. apply app_eq_nil in E. now destruct E. Qed.

(** The BEGIN marker is found after lines that hold no dash. *)
Lemma HasPrefix_preamble (pre rest sep : bytes) :
  Forall (fun x => x <> dash) pre ->
  Bytes.HasPrefix (pre ++ nl :: rest) (dash :: sep) = false.
Proof.
  destruct 1 as [|x pre Hx _]; cbn [app Bytes.HasPrefix].
  - reflexivity.
  - now rewrite (byte_eqb_neq x dash Hx).
Qed.

Lemma Index_preamble (pre rest : bytes) :
  Forall (fun x => x <> dash) pre ->
  Bytes.Index (pre ++ Pem.pemStart ++ rest) Pem.pemStart = Some (length pre).
Proof.
  induction 1 as [|x pre Hx Hpre IH].
  - cbn [app length]. pose proof (HasPrefix_app Pem.pemStart rest) as Hp.
    destruct (Pem.pemStart ++ rest) eqn:E; cbn [Bytes.Index]; now rewrite Hp.
  - cbn [app length Bytes.Index]. rewrite IH.
    assert (Hno : Bytes.HasPrefix (x :: pre ++ Pem.pemStart ++ rest)
                    Pem.pemStart = false).
    { change Pem.pemStart with (nl :: dash :: bytes_of_string "----BEGIN ").
      cbn [Bytes.HasPrefix].
      rewrite <- app_comm_cons.
      rewrite (HasPrefix_preamble pre _ _ Hpre).
      apply andb_false_r. }
    now rewrite Hno.
Qed.

Lemma afterStart_preamble (pre rest : bytes) :
  Forall (fun x => x <> dash) pre ->
  Pem.afterStart (pre ++ Pem.pemStart ++ rest) = Some rest.
Proof.
  intros Hpre. unfold Pem.afterStart.
  change (drop 1 Pem.pemStart) with (dash :: bytes_of_string "----BEGIN ").
  change (Pem.pemStart ++ rest)
    with (nl :: bytes_of_string "-----BEGIN " ++ rest) at 1.
  rewrite (HasPrefix_preamble pre _ _ Hpre).
  rewrite Index_preamble by assumption.
  rewrite drop_app_add. now rewrite drop_app_length.
Qed.

(** A block in PEM decodes to the block whatever lines without a dash
    come before it and whatever bytes come after it; the bytes after
    are left. *)
Lemma Decode_Encode_around (ty : string) (b pre tail : bytes) :
  TypeOk ty ->
  Forall (fun x => x <> dash) pre ->
  Pem.Decode (pre ++ nl :: Pem.Encode ty b ++ tail)
  = (Some {| Pem.Type' := ty; Pem.Headers := []; Pem.Bytes := b |}, tail).
Proof.
  intros Hty Hpre.
  unfold Pem.Encode, Pem.lineBreaker_Write.
  match goal with
  | |- context [Pem.lineBreaker_write ?fuel {| Pem.line := []; Pem.out := ?o |} ?s] =>
      destruct (lineBreaker_Broken fuel s o) as (body & -> & HB); [lia|]
  end.
  unfold Pem.Decode. cbn [Pem.decodeLoop].
  match goal with
  | |- context [Pem.afterStart ?data] =>
      replace data with
        (pre ++ Pem.pemStart
           ++ (typeLine ty ++ nl :: body ++ drop 1 Pem.pemEnd
                 ++ endLine ty ++ tail))
        by (unfold endLine, typeLine; cbn [drop Pem.pemStart Pem.pemEnd];
            rewrite <- ?app_assoc; reflexivity)
  end.
  rewrite afterStart_preamble by assumption.
  rewrite (decodeAt_Encode_tail ty b body tail) by assumption.
  reflexivity.
Qed.

(** *** Input without a BEGIN line *)

Lemma HasPrefix_no_dash (data rest : bytes) :
  Forall (fun c => c <> dash) data ->
  Bytes.HasPrefix data (dash :: rest) = false.
Proof.
  destruct 1 as [|c data Hc _]; cbn [Bytes.HasPrefix]; [reflexivity|].
  now rewrite (byte_eqb_neq c dash Hc).
Qed.

Lemma Index_no_dash (data rest : bytes) (c : byte) :
  Forall (fun c => c <> dash) data ->
  Bytes.Index data (c :: dash :: rest) = None.
Proof.
  induction 1 as [|x data Hx Hdata IH]; [reflexivity|].
  cbn [Bytes.Index Bytes.HasPrefix].
  rewrite (HasPrefix_no_dash data rest Hdata), andb_false_r.
  now rewrite IH.
Qed.

Lemma Decode_no_dash (data : bytes) :
  Forall (fun c => c <> dash) data -> Pem.Decode data = (None, data).
Proof.
  intros Hdata. unfold Pem.Decode. cbn [Pem.decodeLoop].
  unfold Pem.afterStart.
  change (drop 1 Pem.pemStart) with (dash :: bytes_of_string "----BEGIN ").
  rewrite (HasPrefix_no_dash data _ Hdata).
  change Pem.pemStart with (nl :: dash :: bytes_of_string "----BEGIN ").
  now rewrite (Index_no_dash data _ nl Hdata).
Qed.

(** *** Several blocks *)




End PemFacts.

(** ** The certificate encoder *)
Section Encoder.
Context `{Env}.

(** C8 (encode/decode round trip).  For every certificate,
    [pem.Decode] applied to the output of [encodeX509] returns one
    block of type ["CERTIFICATE"], without headers, whose bytes are the
    raw bytes of the certificate, and leaves no byte behind it, so
    that decoding what is left finds no second block. *)
Theorem encodeX509_round_trip (cert : Certificate) :
  exists pem rest,
    encodeX509 cert = Ok pem /\
    Pem.Decode pem =
      (Some {| Pem.Type' := "CERTIFICATE"; Pem.Headers := [];
               Pem.Bytes := Raw cert |}, rest) /\
    rest = [] /\
    (Pem.Decode rest).1 = None.
Proof.
  exists (pemOf cert), []. split; [reflexivity|].
  split; [|split; reflexivity].
  apply PemFacts.Decode_Encode, PemFacts.TypeOk_CERTIFICATE.
Qed.

End Encoder.

(** ** Subjects and SANs *)
Section Extractor.
Context `{Env}.

Lemma fold_left_snoc {A B} (f : A -> B) (l : list A) (acc : list B) :
  fold_left (fun acc x => acc ++ [f x]) l acc = acc ++ map f l.
Proof.
  revert acc. induction l as [|x l IH]; intros acc; simpl.
  - now rewrite app_nil_r.
  - rewrite IH, <- app_assoc. reflexivity.
Qed.

Lemma collectSANs_eq (csr : CertificateRequest) :
  collectSANs csr =
    DNSNames csr ++ EmailAddresses csr
      ++ map IP_String (IPAddresses csr) ++ map URL_String (URIs csr).
Proof.
  unfold collectSANs. rewrite !fold_left_snoc. simpl.
  now rewrite <- !app_assoc.
Qed.

Lemma isLocal_test (s : string) :
  negb (String.eqb s "127.0.0.1") && negb (String.eqb s "localhost") = false
  <-> isLocal s.
Proof.
  unfold isLocal.
  destruct (String.eqb_spec s "127.0.0.1"), (String.eqb_spec s "localhost");
    simpl; intuition congruence.
Qed.

(** The loop returns the first entry that is not local. *)
Lemma firstNotLocal_first (pre post : list string) (x : string) :
  Forall isLocal pre -> ~ isLocal x ->
  firstNotLocal (pre ++ x :: post) = Some x.
Proof.
  intros Hpre Hx. induction Hpre as [|y pre Hy _ IH]; simpl.
  - destruct (negb (String.eqb x "127.0.0.1") && negb (String.eqb x "localhost"))
      eqn:E; [reflexivity|]. apply isLocal_test in E. contradiction.
  - apply isLocal_test in Hy. now rewrite Hy.
Qed.

(** The loop falls through when every entry is local. *)
Lemma firstNotLocal_none (sans : list string) :
  Forall isLocal sans -> firstNotLocal sans = None.
Proof.
  induction 1 as [|y l Hy _ IH]; simpl; [reflexivity|].
  apply isLocal_test in Hy. now rewrite Hy.
Qed.

End Extractor.

(** ** Runs of [Sign] *)
Section Signing.
Context `{Env}.

Lemma append_bytes (s : slice) (b : bytes) :
  slice_bytes (append s b) = slice_bytes s ++ b.
Proof. destruct s, b; reflexivity. Qed.

(** Encoding the roots cannot fail and concatenates their PEM texts
    after what [caPem] holds. *)
Lemma encodeRoots_ok (roots : list Certificate) (caPem : slice) :
  exists out, encodeRoots roots caPem = Ok out /\
    slice_bytes out = slice_bytes caPem ++ concat (map pemOf roots).
Proof.
  revert caPem. induction roots as [|root roots IH]; intros caPem; simpl.
  - exists caPem. now rewrite app_nil_r.
  - destruct (IH (append caPem (Pem.Encode "CERTIFICATE" (Raw root))))
      as (out & -> & Hout).
    exists out. split; [reflexivity|].
    rewrite Hout, append_bytes, <- app_assoc. reflexivity.
Qed.

Lemma Sign_run (s : Step) (cr : CertManagerRequest) (w : World) :
  SignRun s cr w (calls_of (Sign s cr) w) (result_of (Sign s cr) w).
Proof.
  unfold calls_of, result_of, Sign, bind, provisioner_Roots,
    provisioner_Token, provisioner_Sign, call, ret; simpl.
  destruct (ca_Roots (provisioner s) w) as [[roots|e] w1] eqn:HR; simpl;
    [|econstructor; eassumption].
  destruct (encodeRoots_ok (Certificates roots) None) as (caPem & -> & HcaPem).
  simpl in HcaPem.
  destruct (decodeCSR (specRequest cr)) as [csr|err] eqn:HD; simpl;
    [|econstructor; eassumption].
  destruct (ca_Token _ _ _ w1) as [[token|e] w2] eqn:HT; simpl;
    [|econstructor; eassumption].
  destruct (ca_Sign _ _ w2) as [[resp|e] w3] eqn:HS; simpl.
  - eapply RunSigned; eauto.
  - eapply RunSignFailed; eauto.
Qed.

(** C1 (subject resolution).  When the roots were fetched and the
    request is validated, [Sign] asks for a token, and the subject of
    that token is: the common name of the request if it is not empty;
    otherwise ["step-issuer-certificate"] if the request has no SAN;
    otherwise the first SAN that is neither ["127.0.0.1"] nor
    ["localhost"]; and the first SAN if every SAN is one of these two. *)
Theorem subject_resolution (s : Step) (cr : CertManagerRequest) (w w1 : World)
    (roots : RootsResponse) (csr : CertificateRequest) :
  ca_Roots (provisioner s) w = (Ok roots, w1) ->
  decodeCSR (specRequest cr) = Ok csr ->
  exists subject r rest,
    calls_of (Sign s cr) w =
      CallRoots (provisioner s) (Ok roots)
        :: CallToken (provisioner s) subject (collectSANs csr) r :: rest /\
    (CommonName csr <> "" -> subject = CommonName csr) /\
    (CommonName csr = "" -> collectSANs csr = [] ->
       subject = "step-issuer-certificate") /\
    (CommonName csr = "" -> forall pre x post,
       collectSANs csr = pre ++ x :: post ->
       Forall isLocal pre -> ~ isLocal x -> subject = x) /\
    (CommonName csr = "" -> forall first rest',
       collectSANs csr = first :: rest' ->
       Forall isLocal (collectSANs csr) -> subject = first).
Proof.
  intros HR HD.
  assert (Hsub :
    (CommonName csr <> "" ->
       tokenSubject csr (collectSANs csr) = CommonName csr) /\
    (CommonName csr = "" -> collectSANs csr = [] ->
       tokenSubject csr (collectSANs csr) = "step-issuer-certificate") /\
    (CommonName csr = "" -> forall pre x post,
       collectSANs csr = pre ++ x :: post ->
       Forall isLocal pre -> ~ isLocal x ->
       tokenSubject csr (collectSANs csr) = x) /\
    (CommonName csr = "" -> forall first rest',
       collectSANs csr = first :: rest' ->
       Forall isLocal (collectSANs csr) ->
       tokenSubject csr (collectSANs csr) = first)).
  { unfold tokenSubject, generateSubject.
    destruct (String.eqb_spec (CommonName csr) "") as [Hcn|Hcn].
    - repeat split; intros; try contradiction.
      + now match goal with E : collectSANs csr = [] |- _ => rewrite E end.
      + match goal with E : collectSANs csr = _ ++ _ |- _ => rewrite E end.
        rewrite firstNotLocal_first by assumption.
        now destruct pre.
      + rewrite firstNotLocal_none by assumption.
        now match goal with E : collectSANs csr = _ :: _ |- _ => rewrite E end.
    - repeat split; intros; congruence. }
  pose proof (Sign_run s cr w) as Hrun.
  inversion Hrun; subst; try congruence;
    repeat match goal with
           | A : ?x = Ok _, B : ?x = Ok _ |- _ =>
               rewrite A in B; inversion B; subst; clear B
           | A : ?x = (Ok _, _), B : ?x = (Ok _, _) |- _ =>
               rewrite A in B; inversion B; subst; clear B
           end;
    do 3 eexists; (split; [reflexivity | exact Hsub]).
Qed.

(** C6 (SAN collection order).  The SANs of the token request are the
    DNS names of the validated request, then its email addresses, then
    its IP addresses as [ip.String()] renders them, then its URIs as
    [u.String()] renders them, each group in the order of the request. *)
Theorem san_collection_order (s : Step) (cr : CertManagerRequest)
    (w w1 : World) (roots : RootsResponse) (csr : CertificateRequest) :
  ca_Roots (provisioner s) w = (Ok roots, w1) ->
  decodeCSR (specRequest cr) = Ok csr ->
  exists subject r rest,
    calls_of (Sign s cr) w =
      CallRoots (provisioner s) (Ok roots)
        :: CallToken (provisioner s) subject
             (DNSNames csr ++ EmailAddresses csr
                ++ map IP_String (IPAddresses csr)
                ++ map URL_String (URIs csr)) r
        :: rest.
Proof.
  intros HR HD. rewrite <- collectSANs_eq.
  pose proof (Sign_run s cr w) as Hrun.
  inversion Hrun; subst; try congruence;
    repeat match goal with
           | A : ?x = Ok _, B : ?x = Ok _ |- _ =>
               rewrite A in B; inversion B; subst; clear B
           | A : ?x = (Ok _, _), B : ?x = (Ok _, _) |- _ =>
               rewrite A in B; inversion B; subst; clear B
           end;
    do 3 eexists; reflexivity.
Qed.

(** C7 (validity duration).  Every sign request [Sign] sends carries
    in [NotAfter] the zero [TimeDuration] when the request names no
    duration, and the zero value after [SetDuration(d)] when it names
    the duration [d]. *)
Theorem validity_duration (s : Step) (cr : CertManagerRequest) (w : World)
    (p : Provisioner) (req : SignRequest TimeDuration)
    (r : result ExtError SignResponse) :
  In (CallSign p req r) (calls_of (Sign s cr) w) ->
  (specDuration cr = None -> NotAfter req = TimeDuration_zero) /\
  (forall d, specDuration cr = Some d ->
     NotAfter req = SetDuration TimeDuration_zero d).
Proof.
  intros Hin. pose proof (Sign_run s cr w) as Hrun.
  assert (Hna : NotAfter req = requestNotAfter cr).
  { inversion Hrun;
      match goal with Hc : _ = calls_of _ _ |- _ => rewrite <- Hc in Hin end;
      simpl in Hin;
      repeat (destruct Hin as [Hin|Hin]; try discriminate; try contradiction);
      inversion Hin; subst; reflexivity. }
  rewrite Hna. unfold requestNotAfter.
  split; [intros -> | intros d ->]; reflexivity.
Qed.

(** C10 (failure atomicity).  Whenever [Sign] returns an error, both
    byte slices it returns are nil. *)
Theorem Sign_failure_atomic (s : Step) (cr : CertManagerRequest) (w : World)
    (certPem caPem : slice) (err : error) :
  result_of (Sign s cr) w = (certPem, caPem, Some err) ->
  certPem = None /\ caPem = None.
Proof.
  intros Hres. pose proof (Sign_run s cr w) as Hrun.
  rewrite Hres in Hrun.
  inversion Hrun; subst; split; reflexivity.
Qed.

(** C3 (output assembly).  When [Sign] succeeds, the first slice is
    the PEM text of the issued certificate followed by the PEM text of
    the CA's intermediate certificate, and the second holds the PEM
    texts of the roots, in the order the CA returned them. *)
Theorem output_assembly (s : Step) (cr : CertManagerRequest) (w : World)
    (certPem caPem : slice) :
  result_of (Sign s cr) w = (certPem, caPem, None) ->
  exists roots subject sans token req resp,
    calls_of (Sign s cr) w =
      [CallRoots (provisioner s) (Ok roots);
       CallToken (provisioner s) subject sans (Ok token);
       CallSign (provisioner s) req (Ok resp)] /\
    certPem = Some (pemOf (ServerPEM resp) ++ pemOf (CaPEM resp)) /\
    slice_bytes caPem = concat (map pemOf (Certificates roots)).
Proof.
  intros Hres. pose proof (Sign_run s cr w) as Hrun.
  rewrite Hres in Hrun. inversion Hrun; subst.
  repeat eexists; assumption.
Qed.

(** C5 (composite success and error forwarding).  [Sign] succeeds only
    after a successful roots fetch, token issuance and CA sign call;
    the error of a CA call that fails is the error [Sign] returns,
    unchanged; and no CA call is made twice. *)
Theorem Sign_error_forwarding (s : Step) (cr : CertManagerRequest) (w : World) :
  let calls := calls_of (Sign s cr) w in
  let res := result_of (Sign s cr) w in
  (res.2 = None ->
     exists roots subject sans token req resp,
       calls = [CallRoots (provisioner s) (Ok roots);
                CallToken (provisioner s) subject sans (Ok token);
                CallSign (provisioner s) req (Ok resp)]) /\
  (forall c e, In c calls -> failure c = Some e ->
     res = (None, None, Some (Upstream e))) /\
  length (List.filter is_Roots calls) <= 1 /\
  length (List.filter is_Token calls) <= 1 /\
  length (List.filter is_Sign calls) <= 1.
Proof.
  intros calls res. subst calls res.
  pose proof (Sign_run s cr w) as Hrun.
  inversion Hrun; simpl; (split; [|split]);
    try (intros; discriminate);
    try (repeat split; lia);
    try (intros c e' Hin Hf; simpl in Hin;
         repeat (destruct Hin as [Hin|Hin]; try contradiction);
         subst c; simpl in Hf; congruence).
  intros _. repeat eexists.
Qed.

End Signing.

(** ** The request decoder *)
Section Decoder.
Context `{Env}.

(** A request in PEM whose bytes parse and whose signature checks is
    decoded, whatever its bytes. *)
Lemma decodeCSR_Encode (der : bytes) (csr : CertificateRequest) :
  x509_ParseCertificateRequest der = Ok csr ->
  x509_CheckSignature csr = None ->
  decodeCSR (Pem.Encode "CERTIFICATE REQUEST" der) = Ok csr.
Proof.
  intros HP HS. unfold decodeCSR.
  rewrite PemFacts.Decode_Encode by apply PemFacts.TypeOk_CERTIFICATE_REQUEST.
  cbn [length Nat.ltb Nat.leb Pem.Type' Pem.Bytes].
  change (negb ("CERTIFICATE REQUEST" =? "CERTIFICATE REQUEST")%string)
    with false.
  cbn iota. now rewrite HP, HS.
Qed.

(** C2 (CSR decoding).  [decodeCSR] returns a request exactly when
    [pem.Decode] finds a block and leaves no byte behind it, the type of
    the block is ["CERTIFICATE REQUEST"], its bytes parse as a
    certificate request and the signature of the request checks.  Bytes
    left after the block, another block type, a parse failure and a
    signature failure each give an error, and the last two errors
    carry the message of their cause. *)
Theorem decodeCSR_spec (data : bytes) :
  (forall csr,
     decodeCSR data = Ok csr <->
     exists block,
       Pem.Decode data = (Some block, []) /\
       Pem.Type' block = "CERTIFICATE REQUEST" /\
       x509_ParseCertificateRequest (Pem.Bytes block) = Ok csr /\
       x509_CheckSignature csr = None) /\
  (forall block rest,
     Pem.Decode data = (Some block, rest) -> rest <> [] ->
     decodeCSR data = Err (Errorf "unexpected CSR PEM on sign request")) /\
  (forall block,
     Pem.Decode data = (Some block, []) ->
     Pem.Type' block <> "CERTIFICATE REQUEST" ->
     decodeCSR data = Err (Errorf "PEM is not a certificate request")) /\
  (forall block cause,
     Pem.Decode data = (Some block, []) ->
     Pem.Type' block = "CERTIFICATE REQUEST" ->
     x509_ParseCertificateRequest (Pem.Bytes block) = Err cause ->
     decodeCSR data =
       Err (Errorf ("error parsing certificate request: "
                      +:+ ErrorString cause))) /\
  (forall block csr cause,
     Pem.Decode data = (Some block, []) ->
     Pem.Type' block = "CERTIFICATE REQUEST" ->
     x509_ParseCertificateRequest (Pem.Bytes block) = Ok csr ->
     x509_CheckSignature csr = Some cause ->
     decodeCSR data =
       Err (Errorf ("error checking certificate request signature: "
                      +:+ ErrorString cause))).
Proof.
  unfold decodeCSR.
  destruct (Pem.Decode data) as [[block|] [|c rest]] eqn:HD; simpl;
    try solve [decode_cases].
  destruct (String.eqb_spec (Pem.Type' block) "CERTIFICATE REQUEST")
    as [Hty|Hty]; simpl;
    try solve [decode_cases].
  destruct (x509_ParseCertificateRequest (Pem.Bytes block))
    as [csr|cause] eqn:HP;
    try solve [decode_cases].
  destruct (x509_CheckSignature csr) as [cause|] eqn:HS; decode_cases.
Qed.

End Decoder.

(** ** Construction *)
Section Bootstrap.
Context `{Env}.

(** C4, amended (bootstrap outcome at construction).  [New] returns
    an error exactly when [ca.NewProvisioner] fails, or the CA's
    configuration is fetched, asks for client authentication, and a
    call of the identity-certificate exchange fails; [New] returns no
    provisioner exactly when it returns an error; and when the
    configuration cannot be fetched [New] returns no error and makes
    no call of the exchange. *)
Theorem New_outcome (iss : StepIssuer) (password : bytes) (w : World) :
  let calls := calls_of (New iss password) w in
  let res := result_of (New iss password) w in
  (res.2 <> None <-> clientFailed calls \/ bootstrapFailed calls) /\
  (res.2 <> None <-> res.1 = None) /\
  (forall p e, In (CallVersion p (Err e)) calls ->
     res.2 = None /\ forall c, In c calls -> is_exchange c = false).
Proof.
  run_New.
  destruct (ca_NewProvisioner _ _ _ _ _ w) as [[prov|e] w1]; simpl;
    [|finish_New].
  destruct (ca_Version prov w1) as [[[ver []]|e] w2]; simpl;
    [|finish_New|finish_New].
  destruct (ca_CreateCertificateRequest _ w2) as [[[csr pk]|e] w3]; simpl;
    [|finish_New].
  destruct (ca_Token prov _ _ w3) as [[token|e] w4]; simpl;
    [|finish_New].
  destruct (ca_Sign prov _ w4) as [[resp|e] w5]; simpl;
    [|finish_New].
  destruct (ca_Transport prov _ _ w5) as [[tr|e] w6]; simpl;
    finish_New.
Qed.

End Bootstrap.

(** ** The registry *)
Section Registry.
Context `{Env}.

Lemma Load_Store_ne (n k : NamespacedName) (p : option Step)
    (c : gmap NamespacedName any) :
  n <> k -> Load n (Store k p c) = Load n c.
Proof.
  intros Hne. unfold Load, Store.
  rewrite lookup_insert_ne by congruence. reflexivity.
Qed.

Lemma Load_storeAll_other (n : NamespacedName)
    (stores : list (NamespacedName * option Step))
    (c : gmap NamespacedName any) :
  ~ In n (map fst stores) -> Load n (storeAll stores c) = Load n c.
Proof.
  revert c. induction stores as [|[k p] stores IH]; intros c Hn; simpl.
  - reflexivity.
  - simpl in Hn. unfold storeAll in *. simpl.
    rewrite IH by tauto. apply Load_Store_ne. intros ->. tauto.
Qed.

(** C9 (registry round trip).  After [Store(n, p)], [Load(n)] returns
    [(p, true)]; in a collection filled by [Store]s from the empty
    one, [Load] of a name that was never stored returns [(nil, false)]. *)
Theorem registry_round_trip :
  (forall (n : NamespacedName) (p : option Step) (c : gmap NamespacedName any),
     Load n (Store n p c) = (p, true)) /\
  (forall (n : NamespacedName) (stores : list (NamespacedName * option Step)),
     ~ In n (map fst stores) ->
     Load n (storeAll stores ∅) = (None, false)).
Proof.
  split.
  - intros n p c. unfold Load, Store. now rewrite lookup_insert_eq.
  - intros n stores Hn. rewrite Load_storeAll_other by assumption.
    unfold Load. now rewrite lookup_empty.
Qed.

End Registry.

(** * Further properties *)

(** ** The decoder at its edges *)
Section DecoderEdges.
Context `{Env}.

(** Two certificates with the same PEM text are the same certificate. *)
Theorem encodeX509_injective (c1 c2 : Certificate) :
  encodeX509 c1 = encodeX509 c2 -> c1 = c2.
Proof.
  unfold encodeX509. intros [= E]. apply (f_equal Pem.Decode) in E.
  rewrite !PemFacts.Decode_Encode in E by apply PemFacts.TypeOk_CERTIFICATE.
  destruct c1, c2. cbn in E. congruence.
Qed.

(** A certificate in PEM is not taken for a certificate request: the
    decoder rejects it on its type, before the bytes are parsed. *)
Theorem decodeCSR_rejects_certificate (cert : Certificate) (pem : bytes) :
  encodeX509 cert = Ok pem ->
  decodeCSR pem = Err (Errorf "PEM is not a certificate request").
Proof.
  unfold encodeX509. intros [= <-]. unfold decodeCSR.
  rewrite PemFacts.Decode_Encode by apply PemFacts.TypeOk_CERTIFICATE.
  reflexivity.
Qed.

(** Anything after the first PEM block is refused, whatever the block
    holds: a request followed by more bytes, by a second request, or
    by a line feed is rejected before the bytes are parsed. *)
Theorem decodeCSR_rejects_trailing (ty : string) (der tail : bytes) :
  TypeOk ty -> tail <> [] ->
  decodeCSR (Pem.Encode ty der ++ tail)
  = Err (Errorf "unexpected CSR PEM on sign request").
Proof.
  intros Hty Htail. unfold decodeCSR.
  rewrite PemFacts.Decode_Encode_tail by assumption.
  destruct tail; [contradiction|reflexivity].
Qed.

(** Input that holds no dash has no BEGIN line: it is refused, the
    empty input too, before the bytes are parsed. *)
Theorem decodeCSR_needs_marker (data : bytes) :
  Forall (fun c => c <> dash) data ->
  decodeCSR data = Err (Errorf "unexpected CSR PEM on sign request").
Proof.
  intros Hdata. unfold decodeCSR. now rewrite PemFacts.Decode_no_dash.
Qed.

(** Lines without a dash before the BEGIN line are passed over: a
    request in PEM is accepted behind such a preamble as it is
    without one. *)
Theorem decodeCSR_skips_preamble (pre der : bytes) (csr : CertificateRequest) :
  Forall (fun c => c <> dash) pre ->
  x509_ParseCertificateRequest der = Ok csr ->
  x509_CheckSignature csr = None ->
  decodeCSR (pre ++ nl :: Pem.Encode "CERTIFICATE REQUEST" der) = Ok csr.
Proof.
  intros Hpre HP HS. unfold decodeCSR.
  rewrite <- (app_nil_r (Pem.Encode _ der)).
  rewrite PemFacts.Decode_Encode_around
    by (assumption || apply PemFacts.TypeOk_CERTIFICATE_REQUEST).
  cbn. now rewrite HP, HS.
Qed.

End DecoderEdges.

(** ** The subject chosen among the SANs *)
Section SubjectChoice.
Context `{Env}.

Lemma firstNotLocal_Some (sans : list string) (x : string) :
  firstNotLocal sans = Some x -> In x sans /\ ~ isLocal x.
Proof.
  induction sans as [|y sans IH]; cbn; [discriminate|].
  destruct (negb _ && negb _) eqn:E.
  - intros [= ->]. split; [now left|].
    intros Hx. apply isLocal_test in Hx. congruence.
  - intros Hx. destruct (IH Hx). split; [now right|assumption].
Qed.

Lemma firstNotLocal_None (sans : list string) :
  firstNotLocal sans = None -> Forall isLocal sans.
Proof.
  induction sans as [|y sans IH]; cbn; [constructor|].
  destruct (negb _ && negb _) eqn:E; [discriminate|].
  intros Hx. constructor; [now apply isLocal_test|now apply IH].
Qed.

Lemma generateSubject_cases (sans : list string) :
  (sans = [] /\ generateSubject sans = "step-issuer-certificate") \/
  In (generateSubject sans) sans.
Proof.
  destruct sans as [|y sans]; [left; split; reflexivity|]. right.
  unfold generateSubject. cbn [length Nat.eqb].
  destruct (firstNotLocal (y :: sans)) as [x|] eqn:E.
  - now apply firstNotLocal_Some in E.
  - now left.
Qed.

(** Given any SAN, the subject generated is one of the SANs, and it
    is 127.0.0.1 or localhost only when every SAN is. *)
Theorem generateSubject_from_sans (sans : list string) :
  sans <> [] ->
  In (generateSubject sans) sans /\
  (isLocal (generateSubject sans) -> Forall isLocal sans).
Proof.
  destruct sans as [|y sans]; [congruence|]. intros _.
  unfold generateSubject. cbn [length Nat.eqb].
  destruct (firstNotLocal (y :: sans)) as [x|] eqn:E.
  - apply firstNotLocal_Some in E. destruct E. split; [assumption|tauto].
  - apply firstNotLocal_None in E. split; [now left|tauto].
Qed.

End SubjectChoice.

(** ** More on the runs of [Sign] *)
Section SigningRuns.
Context `{Env}.

(** [Sign] talks to the CA through its own provisioner only, and only
    to fetch the roots, ask for a token and ask for a signature. *)
Theorem Sign_calls_own_provisioner (s : Step) (cr : CertManagerRequest)
    (w : World) (c : Call) :
  In c (calls_of (Sign s cr) w) ->
  (exists r, c = CallRoots (provisioner s) r) \/
  (exists subject sans r, c = CallToken (provisioner s) subject sans r) \/
  (exists req r, c = CallSign (provisioner s) req r).
Proof.
  intros Hin. pose proof (Sign_run s cr w) as Hrun.
  inversion Hrun;
    match goal with Hc : _ = calls_of _ _ |- _ => rewrite <- Hc in Hin end;
    simpl in Hin;
    repeat (destruct Hin as [Hin|Hin]; try contradiction);
    subst c; eauto 10.
Qed.

(** The roots are fetched before the request is looked at: when the
    fetch fails, that error is returned whatever the request is. *)
Theorem Sign_roots_first (s : Step) (cr : CertManagerRequest)
    (w w1 : World) (e : ExtError) :
  ca_Roots (provisioner s) w = (Err e, w1) ->
  calls_of (Sign s cr) w = [CallRoots (provisioner s) (Err e)] /\
  result_of (Sign s cr) w = (None, None, Some (Upstream e)).
Proof.
  intros HR. pose proof (Sign_run s cr w) as Hrun.
  inversion Hrun; same_results; split; reflexivity.
Qed.

(** A request that does not decode is turned down before any token
    or signature is asked for; the decoder's error is returned. *)
Theorem Sign_rejects_before_token (s : Step) (cr : CertManagerRequest)
    (w w1 : World) (roots : RootsResponse) (err : error) :
  ca_Roots (provisioner s) w = (Ok roots, w1) ->
  decodeCSR (specRequest cr) = Err err ->
  calls_of (Sign s cr) w = [CallRoots (provisioner s) (Ok roots)] /\
  result_of (Sign s cr) w = (None, None, Some err).
Proof.
  intros HR HD. pose proof (Sign_run s cr w) as Hrun.
  inversion Hrun; same_results; try congruence.
  match goal with
  | A : decodeCSR _ = Err ?a, B : decodeCSR _ = Err ?b |- _ =>
      rewrite A in B; inversion B; subst
  end.
  split; reflexivity.
Qed.

(** What is sent for signature: the request as decoded, with the
    token the CA has just issued, and no not-before constraint. *)
Theorem Sign_request_contents (s : Step) (cr : CertManagerRequest) (w : World)
    (p : Provisioner) (req : SignRequest TimeDuration)
    (r : result ExtError SignResponse) :
  In (CallSign p req r) (calls_of (Sign s cr) w) ->
  exists subject sans,
    decodeCSR (specRequest cr) = Ok (CsrPEM req) /\
    In (CallToken p subject sans (Ok (OTT req))) (calls_of (Sign s cr) w) /\
    NotBefore req = TimeDuration_zero.
Proof.
  intros Hin. pose proof (Sign_run s cr w) as Hrun.
  inversion Hrun;
    match goal with Hc : _ = calls_of _ _ |- _ => rewrite <- Hc in * end;
    simpl in Hin;
    repeat (destruct Hin as [Hin|Hin]; try discriminate; try contradiction);
    inversion Hin; subst; do 2 eexists; simpl; eauto 10.
Qed.


Lemma encodeRoots_Some (roots : list Certificate) (b : bytes) (out : slice) :
  encodeRoots roots (Some b) = Ok out -> out <> None.
Proof.
  revert b. induction roots as [|root roots IH]; intros b; cbn.
  - now intros [= <-].
  - apply IH.
Qed.

Lemma encodeRoots_None (roots : list Certificate) (out : slice) :
  encodeRoots roots None = Ok out -> (out = None <-> roots = []).
Proof.
  destruct roots as [|root roots]; cbn.
  - intros [= <-]. tauto.
  - pose proof (PemFacts.Encode_nonempty_pem "CERTIFICATE" (Raw root)) as Hne.
    destruct (Pem.Encode "CERTIFICATE" (Raw root)) as [|c pem];
      [congruence|].
    intros Hout. apply encodeRoots_Some in Hout.
    split; [contradiction|discriminate].
Qed.

(** The root bundle of a successful run is what the loop over the
    roots has built. *)
Lemma Sign_caPem (s : Step) (cr : CertManagerRequest) (w w1 : World)
    (roots : RootsResponse) (certPem caPem : slice) :
  ca_Roots (provisioner s) w = (Ok roots, w1) ->
  result_of (Sign s cr) w = (certPem, caPem, None) ->
  certPem <> None /\ encodeRoots (Certificates roots) None = Ok caPem.
Proof.
  unfold result_of, Sign, bind, provisioner_Roots, provisioner_Token,
    provisioner_Sign, call, ret; simpl.
  intros ->; simpl.
  destruct (encodeRoots (Certificates roots) None) as [out|err]; simpl;
    [|discriminate].
  destruct (decodeCSR (specRequest cr)) as [csr|err]; simpl; [|discriminate].
  destruct (ca_Token _ _ _ w1) as [[token|e] w2]; simpl; [|discriminate].
  destruct (ca_Sign _ _ w2) as [[resp|e] w3]; simpl; [|discriminate].
  intros [= <- <-]. split; [discriminate|reflexivity].
Qed.

(** A successful run returns a chain, and it returns a nil root bundle
    exactly when the CA has no root certificate. *)
Theorem Sign_nil_root_bundle (s : Step) (cr : CertManagerRequest)
    (w w1 : World) (roots : RootsResponse) (certPem caPem : slice) :
  ca_Roots (provisioner s) w = (Ok roots, w1) ->
  result_of (Sign s cr) w = (certPem, caPem, None) ->
  certPem <> None /\ (caPem = None <-> Certificates roots = []).
Proof.
  intros HR Hres. destruct (Sign_caPem s cr w w1 roots certPem caPem HR Hres)
    as [Hcert Hca].
  split; [exact Hcert|]. now apply encodeRoots_None.
Qed.

(** [Sign] succeeds on a request in PEM whose bytes parse and verify
    as soon as the CA serves the roots, the token and the signature. *)
Theorem Sign_succeeds (s : Step) (cr : CertManagerRequest) (der : bytes)
    (csr : CertificateRequest) (w w1 w2 w3 : World) (roots : RootsResponse)
    (token : string) (resp : SignResponse) :
  specRequest cr = Pem.Encode "CERTIFICATE REQUEST" der ->
  x509_ParseCertificateRequest der = Ok csr ->
  x509_CheckSignature csr = None ->
  ca_Roots (provisioner s) w = (Ok roots, w1) ->
  ca_Token (provisioner s) (tokenSubject csr (collectSANs csr))
           (collectSANs csr) w1 = (Ok token, w2) ->
  ca_Sign (provisioner s)
          {| CsrPEM := csr; OTT := token; NotBefore := TimeDuration_zero;
             NotAfter := requestNotAfter cr |} w2 = (Ok resp, w3) ->
  exists caPem,
    result_of (Sign s cr) w =
      (Some (pemOf (ServerPEM resp) ++ pemOf (CaPEM resp)), caPem, None).
Proof.
  intros Hreq HP HS HR HT HSi.
  assert (HD : decodeCSR (specRequest cr) = Ok csr)
    by (rewrite Hreq; now apply decodeCSR_Encode).
  pose proof (Sign_run s cr w) as Hrun.
  inversion Hrun; subst;
    repeat match goal with x := _ |- _ => subst x end;
    same_results; eauto.
Qed.


Lemma decodeCSR_Errorf (data : bytes) (err : error) :
  decodeCSR data = Err err -> exists msg, err = Errorf msg.
Proof.
  unfold decodeCSR.
  destruct (Pem.Decode data) as [[block|] rest]; [|intros [= <-]; eauto].
  destruct (0 <? length rest); [intros [= <-]; eauto|].
  destruct (negb _); [intros [= <-]; eauto|].
  destruct (x509_ParseCertificateRequest _) as [csr|e]; [|intros [= <-]; eauto].
  destruct (x509_CheckSignature csr); [intros [= <-]; eauto|discriminate].
Qed.

(** The two kinds of error of [Sign]: an error made here when the
    request does not decode, and then no token was asked for; or the
    error of the last CA call, handed on as it is. *)
Theorem Sign_error_kinds (s : Step) (cr : CertManagerRequest) (w : World)
    (certPem caPem : slice) (err : error) :
  result_of (Sign s cr) w = (certPem, caPem, Some err) ->
  (exists msg, err = Errorf msg /\ decodeCSR (specRequest cr) = Err err /\
               Forall (fun c => is_Token c = false) (calls_of (Sign s cr) w))
  \/
  (exists c e, last (calls_of (Sign s cr) w) = Some c /\
               failure c = Some e /\ err = Upstream e).
Proof.
  intros Hres. pose proof (Sign_run s cr w) as Hrun.
  rewrite Hres in Hrun. inversion Hrun; subst.
  - right. do 2 eexists. repeat split; reflexivity.
  - left. match goal with E : decodeCSR _ = Err _ |- _ =>
            destruct (decodeCSR_Errorf _ _ E) as [msg ->] end.
    exists msg. repeat split; [assumption|]. repeat constructor.
  - right. do 2 eexists. repeat split; reflexivity.
  - right. do 2 eexists. repeat split; reflexivity.
Qed.

(** The subject a token is asked for is never empty, unless the
    request itself carries an empty SAN. *)
Theorem Sign_subject_nonempty (s : Step) (cr : CertManagerRequest) (w : World)
    (p : Provisioner) (subject : string) (sans : list string)
    (r : result ExtError string) :
  In (CallToken p subject sans r) (calls_of (Sign s cr) w) ->
  Forall (fun san => san <> "") sans ->
  subject <> "".
Proof.
  intros Hin Hsans. pose proof (Sign_run s cr w) as Hrun.
  assert (Hsub : exists csr, subject = tokenSubject csr sans).
  { inversion Hrun;
      match goal with Hc : _ = calls_of _ _ |- _ => rewrite <- Hc in Hin end;
      simpl in Hin;
      repeat (destruct Hin as [Hin|Hin]; try discriminate; try contradiction);
      inversion Hin; subst; eauto. }
  destruct Hsub as [csr ->]. unfold tokenSubject.
  destruct (String.eqb_spec (CommonName csr) "") as [_|Hcn]; [|exact Hcn].
  destruct (generateSubject_cases sans) as [[_ ->]|Hin']; [discriminate|].
  rewrite Forall_forall in Hsans. apply Hsans. now apply list_elem_of_In.
Qed.

End SigningRuns.

(** ** Runs of [New] and of the identity-certificate exchange *)
Section BootstrapRuns.
Context `{Env}.

(** When the exchange succeeds it made five calls, each fed by the
    ones before: a request and key for the provisioner's name, a token
    for that name and no SAN, a signature over that request with that
    token and no validity bounds, a transport from the signed
    certificate and the key, and the transport set on the client. *)
Theorem createIdentityCertificate_success (s : Step) (w : World) :
  result_of (createIdentityCertificate s) w = None ->
  exists csr pk token resp tr,
    calls_of (createIdentityCertificate s) w =
      [CallCreateCertificateRequest (name s) (Ok (csr, pk));
       CallToken (provisioner s) (name s) [] (Ok token);
       CallSign (provisioner s)
                {| CsrPEM := csr; OTT := token;
                   NotBefore := TimeDuration_zero;
                   NotAfter := TimeDuration_zero |} (Ok resp);
       CallTransport (provisioner s) resp pk (Ok tr);
       CallSetTransport (provisioner s) tr].
Proof.
  run_New. run_exchange s w; try discriminate.
  intros _. do 5 eexists. reflexivity.
Qed.

(** When the exchange fails it stopped at the first call that failed
    and returns that call's error as it is; the client's transport
    was not replaced. *)
Theorem createIdentityCertificate_failure (s : Step) (w : World)
    (err : error) :
  result_of (createIdentityCertificate s) w = Some err ->
  exists done c e,
    calls_of (createIdentityCertificate s) w = done ++ [c] /\
    Forall (fun c' => failure c' = None) done /\
    failure c = Some e /\ err = Upstream e /\
    Forall (fun c' => is_SetTransport c' = false) (done ++ [c]).
Proof.
  run_New. run_exchange s w; try discriminate; intros [= <-].
  - eexists [_; _; _], _, _. repeat split; repeat constructor.
  - eexists [_; _], _, _. repeat split; repeat constructor.
  - eexists [_], _, _. repeat split; repeat constructor.
  - eexists [], _, _. repeat split; repeat constructor.
Qed.


(** [ca.NewProvisioner] is called with the issuer's provisioner name,
    key id and URL and the password given; it gets the CA bundle as
    its one option when the issuer has one, and no option otherwise. *)
Theorem New_client_options (iss : StepIssuer) (password : bytes) (w : World)
    (pname kid url : string) (pw : bytes) (options : list ClientOption)
    (r : result ExtError Provisioner) :
  In (CallNewProvisioner pname kid url pw options r)
     (calls_of (New iss password) w) ->
  pname = specProvisionerName iss /\ kid = specProvisionerKeyID iss /\
  url = specURL iss /\ pw = password /\
  ((specCABundle iss = [] /\ options = []) \/
   (specCABundle iss <> [] /\ options = [WithCABundle (specCABundle iss)])).
Proof.
  assert (Hopt : (specCABundle iss = [] /\ optionsOf iss = []) \/
                 (specCABundle iss <> [] /\
                  optionsOf iss = [WithCABundle (specCABundle iss)])).
  { unfold optionsOf. destruct (specCABundle iss); [now left|now right]. }
  fold (optionsOf iss) in Hopt.
  run_New_cases iss password w; intros Hin;
    repeat (destruct Hin as [Hin|Hin]; try discriminate; try contradiction);
    inversion Hin; subst; repeat split; exact Hopt.
Qed.

(** The provisioner [New] returns is named [Name.Namespace] after the
    issuer and wraps the client [ca.NewProvisioner] made; every call
    after that one is made on this client, or makes the key pair for
    this name. *)
Theorem New_returns_named_step (iss : StepIssuer) (password : bytes)
    (w : World) (p : Step) (err : option error) :
  result_of (New iss password) w = (Some p, err) ->
  p = stepOf iss (provisioner p) /\
  exists rest,
    calls_of (New iss password) w =
      CallNewProvisioner (specProvisionerName iss) (specProvisionerKeyID iss)
        (specURL iss) password (optionsOf iss) (Ok (provisioner p)) :: rest /\
    Forall (fun c =>
              match c with
              | CallNewProvisioner _ _ _ _ _ _ => False
              | CallCreateCertificateRequest cn _ => cn = name p
              | CallVersion q _ | CallRoots q _ | CallToken q _ _ _
              | CallSign q _ _ | CallTransport q _ _ _
              | CallSetTransport q _ => q = provisioner p
              end) rest.
Proof.
  run_New_cases iss password w; intros [= <- <-];
    (split; [reflexivity|]); eexists; (split; [reflexivity|]);
    repeat constructor.
Qed.

(** When the CA asks for client authentication, [New] is the two
    calls that make the client and fetch the configuration followed
    by the identity-certificate exchange on the new provisioner, and
    it succeeds exactly when the exchange does. *)
Theorem New_runs_exchange (iss : StepIssuer) (password : bytes)
    (w w1 w2 : World) (prov : Provisioner) (v : VersionResponse) :
  ca_NewProvisioner (specProvisionerName iss) (specProvisionerKeyID iss)
    (specURL iss) password (optionsOf iss) w = (Ok prov, w1) ->
  ca_Version prov w1 = (Ok v, w2) ->
  RequireClientAuthentication v = true ->
  calls_of (New iss password) w =
    CallNewProvisioner (specProvisionerName iss) (specProvisionerKeyID iss)
      (specURL iss) password (optionsOf iss) (Ok prov)
    :: CallVersion prov (Ok v)
    :: calls_of (createIdentityCertificate (stepOf iss prov)) w2 /\
  result_of (New iss password) w =
    match result_of (createIdentityCertificate (stepOf iss prov)) w2 with
    | Some err => (None, Some err)
    | None => (Some (stepOf iss prov), None)
    end.
Proof.
  unfold optionsOf. intros HN HV HR. run_New. rewrite HN; simpl.
  rewrite HV; simpl. rewrite HR; simpl.
  destruct (ca_CreateCertificateRequest _ w2) as [[[csr pk]|e] w3]; simpl;
    [|now split].
  destruct (ca_Token prov _ _ w3) as [[token|e] w4]; simpl; [|now split].
  destruct (ca_Sign prov _ w4) as [[resp|e] w5]; simpl; [|now split].
  destruct (ca_Transport prov _ _ w5) as [[tr|e] w6]; simpl; now split.
Qed.

(** When the CA does not ask for client authentication [New] stops
    after fetching the configuration: it succeeds, asks for no
    identity certificate and leaves the client's transport alone. *)
Theorem New_without_client_authentication (iss : StepIssuer)
    (password : bytes) (w : World) (q : Provisioner) (v : VersionResponse) :
  In (CallVersion q (Ok v)) (calls_of (New iss password) w) ->
  RequireClientAuthentication v = false ->
  result_of (New iss password) w = (Some (stepOf iss q), None) /\
  length (calls_of (New iss password) w) = 2 /\
  Forall (fun c => is_exchange c = false /\ is_SetTransport c = false)
         (calls_of (New iss password) w).
Proof.
  run_New_cases iss password w; intros Hin Hv;
    repeat (destruct Hin as [Hin|Hin]; try discriminate; try contradiction);
    inversion Hin; subst; simpl in Hv; try discriminate;
    repeat split; repeat constructor.
Qed.

(** An error of [New] is the error of the last call it made, handed
    on as it is; every call before that one succeeded, and the
    client's transport was not replaced. *)
Theorem New_error_passthrough (iss : StepIssuer) (password : bytes)
    (w : World) (p : option Step) (err : error) :
  result_of (New iss password) w = (p, Some err) ->
  exists done c e,
    calls_of (New iss password) w = done ++ [c] /\
    Forall (fun c' => failure c' = None) done /\
    failure c = Some e /\ err = Upstream e /\
    Forall (fun c' => is_SetTransport c' = false) (done ++ [c]).
Proof.
  run_New_cases iss password w; intros [= <- <-].
  - eexists [_; _; _; _; _], _, _. repeat split; repeat constructor.
  - eexists [_; _; _; _], _, _. repeat split; repeat constructor.
  - eexists [_; _; _], _, _. repeat split; repeat constructor.
  - eexists [_; _], _, _. repeat split; repeat constructor.
  - eexists [], _, _. repeat split; repeat constructor.
Qed.

(** A provisioner made for a CA that asks for client authentication
    has had its transport replaced, as the last thing [New] did, by
    the transport built from the certificate the CA signed for the
    provisioner's own name. *)
Theorem New_installs_transport (iss : StepIssuer) (password : bytes)
    (w : World) (p : Step) (q : Provisioner) (v : VersionResponse) :
  result_of (New iss password) w = (Some p, None) ->
  In (CallVersion q (Ok v)) (calls_of (New iss password) w) ->
  RequireClientAuthentication v = true ->
  exists csr pk token resp tr,
    In (CallCreateCertificateRequest (name p) (Ok (csr, pk)))
       (calls_of (New iss password) w) /\
    In (CallToken (provisioner p) (name p) [] (Ok token))
       (calls_of (New iss password) w) /\
    In (CallSign (provisioner p)
                 {| CsrPEM := csr; OTT := token;
                    NotBefore := TimeDuration_zero;
                    NotAfter := TimeDuration_zero |} (Ok resp))
       (calls_of (New iss password) w) /\
    In (CallTransport (provisioner p) resp pk (Ok tr))
       (calls_of (New iss password) w) /\
    last (calls_of (New iss password) w)
      = Some (CallSetTransport (provisioner p) tr).
Proof.
  run_New_cases iss password w; intros [= <-] Hin Hv;
    repeat (destruct Hin as [Hin|Hin]; try discriminate; try contradiction);
    inversion Hin; subst; simpl in Hv; try discriminate.
  exists csr, pk, token, resp, tr. simpl. repeat split; eauto 10.
Qed.

End BootstrapRuns.

(** ** The registry after many [Store]s *)
Section RegistryHistory.
Context `{Env}.

Lemma storeAll_snoc (stores : list (NamespacedName * option Step))
    (k : NamespacedName) (p : option Step) (c : gmap NamespacedName any) :
  storeAll (stores ++ [(k, p)]) c = Store k p (storeAll stores c).
Proof. unfold storeAll. now rewrite fold_left_app. Qed.

(** The last [Store] under a name is what [Load] finds, whatever was
    stored under that name before and whatever is stored under other
    names after. *)
Theorem Load_last_Store (n : NamespacedName) (p : option Step)
    (before later : list (NamespacedName * option Step))
    (c : gmap NamespacedName any) :
  ~ In n (map fst later) ->
  Load n (storeAll (before ++ (n, p) :: later) c) = (p, true).
Proof.
  intros Hn. unfold storeAll. rewrite fold_left_app. cbn [fold_left].
  fold (storeAll later (Store (n, p).1 (n, p).2 (fold_left
          (fun c kv => Store kv.1 kv.2 c) before c))).
  rewrite Load_storeAll_other by assumption.
  unfold Load, Store. cbn. now rewrite lookup_insert_eq.
Qed.

(** In a collection filled by [Store]s from the empty one, [Load]
    reports a name as present exactly when something was stored under
    it, a nil pointer too. *)
Theorem Load_found_iff_stored (n : NamespacedName)
    (stores : list (NamespacedName * option Step)) :
  (Load n (storeAll stores ∅)).2 = true <-> In n (map fst stores).
Proof.
  induction stores as [|[k p] stores IH] using rev_ind.
  - cbn. unfold Load. rewrite lookup_empty. cbn. split; [discriminate|tauto].
  - rewrite storeAll_snoc, map_app, in_app_iff. cbn [map fst In].
    destruct (decide (n = k)) as [->|Hne].
    + unfold Load, Store. rewrite lookup_insert_eq. cbn. tauto.
    + rewrite Load_Store_ne by assumption. rewrite IH.
      split; [tauto|]. intros [Hin|[Hk|[]]]; [assumption|congruence].
Qed.

End RegistryHistory.

(** * The properties on the scripted CA *)
Module Examples.
Import Scripted.

(** ** The codecs on small inputs *)

Example Base64_Encode_hello :
  string_of_bytes (Base64.Encode (bytes_of_string "hello")) = "aGVsbG8=".
Proof. reflexivity. Qed.

Example Base64_Decode_lines :
  Base64.Decode (bytes_of_string "aGVs
bG8=
") = Some (bytes_of_string "hello").
Proof. reflexivity. Qed.

Example Base64_Decode_unpadded :
  Base64.Decode (bytes_of_string "aGVsbG8") = None.
Proof. reflexivity. Qed.

Example Pem_Encode_hello :
  string_of_bytes (Pem.Encode "CERTIFICATE" (bytes_of_string "hello")) =
"-----BEGIN CERTIFICATE-----
aGVsbG8=
-----END CERTIFICATE-----
".
Proof. reflexivity. Qed.

Example Pem_Decode_trailing :
  Pem.Decode (Pem.Encode "CERTIFICATE" (bytes_of_string "hello")
                ++ bytes_of_string "trailing")
  = (Some {| Pem.Type' := "CERTIFICATE"; Pem.Headers := [];
             Pem.Bytes := bytes_of_string "hello" |},
     bytes_of_string "trailing").
Proof. vm_compute. reflexivity. Qed.

Example Pem_Decode_garbage :
  Pem.Decode (bytes_of_string "no block here") =
  (None, bytes_of_string "no block here").
Proof. vm_compute. reflexivity. Qed.

(** ** The subject policy on the inputs of the specification *)

Example generateSubject_all_local :
  generateSubject ["127.0.0.1"; "localhost"] = "127.0.0.1".
Proof. reflexivity. Qed.

Example generateSubject_skips_local :
  generateSubject ["127.0.0.1"; "app.example.com"] = "app.example.com".
Proof. reflexivity. Qed.

Example generateSubject_no_sans :
  generateSubject [] = "step-issuer-certificate".
Proof. reflexivity. Qed.

(** ** The request decoder on wrong inputs *)

Example decodeCSR_wrong_type :
  decodeCSR (Pem.Encode "CERTIFICATE" (bytes_of_string "named"))
  = Err (Errorf "PEM is not a certificate request").
Proof. vm_compute. reflexivity. Qed.

Example decodeCSR_trailing :
  decodeCSR (specRequest (requestOf "named" None) ++ bytes_of_string "x")
  = Err (Errorf "unexpected CSR PEM on sign request").
Proof. vm_compute. reflexivity. Qed.

(** ** The theorems at concrete inputs *)

(** C1 at a request without common name whose first SAN is
    [localhost]: the token is asked for [app.example.com]. *)
Lemma subject_resolution_witness :
  exists r rest,
    calls_of (Sign step (requestOf "anonymous" None)) healthy =
      CallRoots (provisioner step) (Ok {| Certificates := [rootCert] |})
        :: CallToken (provisioner step) "app.example.com"
             (collectSANs csrAnonymous) r
        :: rest.
Proof.
  assert (HR : ca_Roots (provisioner step) healthy
               = (Ok {| Certificates := [rootCert] |}, healthy))
    by reflexivity.
  assert (HD : decodeCSR (specRequest (requestOf "anonymous" None))
               = Ok csrAnonymous)
    by (vm_compute; reflexivity).
  destruct (subject_resolution (H:=env) step (requestOf "anonymous" None)
              healthy healthy _ csrAnonymous HR HD)
    as (subject & r & rest & Hcalls & _ & _ & Hfirst & _).
  exists r, rest.
  rewrite Hcalls.
  rewrite (Hfirst eq_refl ["localhost"] "app.example.com"
             ["ops@example.com"; "127.0.0.1"; "spiffe://example.com/app"]).
  - reflexivity.
  - reflexivity.
  - constructor; [right; reflexivity | constructor].
  - intros [E|E]; discriminate E.
Defined.

(** C6 at a request with SANs of all four kinds. *)
Lemma san_collection_order_witness :
  exists subject r rest,
    calls_of (Sign step (requestOf "anonymous" None)) healthy =
      CallRoots (provisioner step) (Ok {| Certificates := [rootCert] |})
        :: CallToken (provisioner step) subject
             ["localhost"; "app.example.com"; "ops@example.com";
              "127.0.0.1"; "spiffe://example.com/app"] r
        :: rest.
Proof.
  assert (HR : ca_Roots (provisioner step) healthy
               = (Ok {| Certificates := [rootCert] |}, healthy))
    by reflexivity.
  assert (HD : decodeCSR (specRequest (requestOf "anonymous" None))
               = Ok csrAnonymous)
    by (vm_compute; reflexivity).
  exact (san_collection_order (H:=env) step (requestOf "anonymous" None)
           healthy healthy _ csrAnonymous HR HD).
Defined.

(** C7 at a request for one hour (in the scripted CA a
    [TimeDuration] is the duration set, zero when none). *)
Lemma validity_duration_witness :
  let cr := requestOf "named" (Some 3600%Z) in
  let req := {| CsrPEM := csrNamed; OTT := "token:example.com";
                NotBefore := 0%Z; NotAfter := 3600%Z |} in
  (specDuration cr = None -> NotAfter req = TimeDuration_zero) /\
  (forall d, specDuration cr = Some d ->
     NotAfter req = SetDuration TimeDuration_zero d).
Proof.
  intros cr req.
  apply (validity_duration (H:=env) step cr healthy (provisioner step) req
           (Ok {| ServerPEM := leafFor csrNamed; CaPEM := intermediateCert |})).
  vm_compute. right. right. left. reflexivity.
Defined.

(** C10 at a run where the roots are fetched and encoded and the
    token is then refused. *)
Lemma Sign_failure_atomic_witness :
  let res := result_of (Sign step (requestOf "named" None)) tokenRefused in
  res.1.1 = None /\ res.1.2 = None.
Proof.
  intros res.
  apply (Sign_failure_atomic (H:=env) step (requestOf "named" None) tokenRefused
           res.1.1 res.1.2 (Upstream (H:=env) "ca: token refused")).
  vm_compute. reflexivity.
Defined.

(** C3 at a successful run. *)
Lemma output_assembly_witness :
  let res := result_of (Sign step (requestOf "named" None)) healthy in
  res.1.1 = Some (pemOf (leafFor csrNamed) ++ pemOf intermediateCert) /\
  slice_bytes res.1.2 = pemOf rootCert.
Proof.
  intros res.
  destruct (output_assembly (H:=env) step (requestOf "named" None) healthy
              res.1.1 res.1.2)
    as (roots & subject & sans & token & req & resp & Hcalls & Hcert & Hca).
  { vm_compute. reflexivity. }
  vm_compute in Hcalls. injection Hcalls as <- _ _ _ _ <-.
  split; [exact Hcert|].
  rewrite Hca. cbn [Certificates map concat]. now rewrite app_nil_r.
Defined.

(** C5 at a run where the token is refused: [Sign] returns the CA's
    error. *)
Lemma Sign_error_forwarding_witness :
  result_of (Sign step (requestOf "named" None)) tokenRefused
  = (None, None, Some (Upstream (H:=env) "ca: token refused")).
Proof.
  apply (proj1 (proj2 (Sign_error_forwarding (H:=env) step (requestOf "named" None)
                         tokenRefused))
           (CallToken (H:=env) (provisioner step) "example.com" ["example.com"]
                      (Err "ca: token refused"))).
  - vm_compute. right. left. reflexivity.
  - reflexivity.
Defined.

(** C2 at a well-formed request. *)
Lemma decodeCSR_spec_witness :
  decodeCSR (specRequest (requestOf "named" None)) = Ok csrNamed.
Proof.
  apply (proj1 (decodeCSR_spec (H:=env) (specRequest (requestOf "named" None)))).
  exists {| Pem.Type' := "CERTIFICATE REQUEST"; Pem.Headers := [];
            Pem.Bytes := bytes_of_string "named" |}.
  repeat split; vm_compute; reflexivity.
Defined.

(** C9 at a collection with one provisioner. *)
Lemma registry_round_trip_witness :
  let n := {| Namespace := "default"; Name := "issuer" |} in
  let m := {| Namespace := "default"; Name := "other" |} in
  Load n (Store n (Some step) ∅) = (Some step, true) /\
  Load m (storeAll [(n, Some step)] ∅) = (None, false).
Proof.
  intros n m. split.
  - apply (proj1 (registry_round_trip (H:=env))).
  - apply (proj2 (registry_round_trip (H:=env)) m [(n, Some step)]).
    cbn. intros [E|[]]. discriminate E.
Defined.

(** C4, amended, at a CA that asks for client authentication and
    whose transport cannot be built. *)
Lemma New_outcome_witness :
  let res := result_of (New issuer []) noTransport in
  res.2 <> None /\ res.1 = None.
Proof.
  intros res.
  destruct (New_outcome (H:=env) issuer [] noTransport) as (Hfail & Hnil & _).
  assert (Herr : res.2 <> None).
  { apply Hfail. right.
    exists "https://ca",
      {| Version := "0.15"; RequireClientAuthentication := true |},
      (CallTransport (H:=env) "https://ca"
         {| ServerPEM := leafFor {| CommonName := "issuer.default";
                                    DNSNames := []; EmailAddresses := [];
                                    IPAddresses := []; URIs := [] |};
            CaPEM := intermediateCert |} tt (Err "ca: transport failed")),
      "ca: transport failed".
    vm_compute. intuition. }
  split; [exact Herr|]. apply Hnil, Herr.
Defined.

(** C4 as stated fails: when [ca.NewProvisioner] fails, [New] returns
    an error although the CA's configuration was never fetched and no
    call of the exchange was made. *)
Lemma New_fails_before_bootstrap :
  ~ ((result_of (New issuer []) noClient).2 <> None <->
     bootstrapFailed (calls_of (New issuer []) noClient)).
Proof.
  intros [Hfails _].
  destruct Hfails as (p & v & c & e & Hv & _).
  - vm_compute. discriminate.
  - vm_compute in Hv. destruct Hv as [Hv|[]]. discriminate Hv.
Qed.

End Examples.

(** * The further properties on the scripted CA *)
Module MoreExamples.
Import Scripted.

(** ** The decoder *)

Lemma encodeX509_injective_witness :
  encodeX509 (H:=env) rootCert
    = encodeX509 {| Raw := bytes_of_string "root" |} /\
  rootCert = {| Raw := bytes_of_string "root" |}.
Proof.
  assert (E : encodeX509 (H:=env) rootCert
              = encodeX509 {| Raw := bytes_of_string "root" |})
    by reflexivity.
  split; [exact E|].
  exact (encodeX509_injective (H:=env) rootCert _ E).
Defined.

(** The root certificate of the scripted CA, sent as a request. *)
Lemma decodeCSR_rejects_certificate_witness :
  decodeCSR (H:=env) (pemOf rootCert)
  = Err (Errorf "PEM is not a certificate request").
Proof.
  apply (decodeCSR_rejects_certificate (H:=env) rootCert (pemOf rootCert)).
  reflexivity.
Defined.

(** A request followed by one empty line. *)
Lemma decodeCSR_rejects_trailing_witness :
  decodeCSR (H:=env) (specRequest (requestOf "named" None) ++ [nl])
  = Err (Errorf "unexpected CSR PEM on sign request").
Proof.
  apply (decodeCSR_rejects_trailing (H:=env) "CERTIFICATE REQUEST"
           (bytes_of_string "named") [nl]).
  - apply PemFacts.TypeOk_CERTIFICATE_REQUEST.
  - discriminate.
Defined.

(** Base64 text without its BEGIN and END lines. *)
Lemma decodeCSR_needs_marker_witness :
  decodeCSR (H:=env) (bytes_of_string "bmFtZWQ=")
  = Err (Errorf "unexpected CSR PEM on sign request").
Proof.
  apply (decodeCSR_needs_marker (H:=env)).
  repeat constructor; discriminate.
Defined.

(** A request behind a line of text. *)
Lemma decodeCSR_skips_preamble_witness :
  decodeCSR (H:=env)
    (bytes_of_string "request for example.com"
       ++ nl :: specRequest (requestOf "named" None))
  = Ok csrNamed.
Proof.
  apply (decodeCSR_skips_preamble (H:=env)
           (bytes_of_string "request for example.com")
           (bytes_of_string "named") csrNamed).
  - repeat constructor; discriminate.
  - reflexivity.
  - reflexivity.
Defined.

(** ** The subject *)

Lemma generateSubject_from_sans_witness :
  In (generateSubject ["localhost"; "127.0.0.1"]) ["localhost"; "127.0.0.1"] /\
  (isLocal (generateSubject ["localhost"; "127.0.0.1"]) ->
   Forall isLocal ["localhost"; "127.0.0.1"]).
Proof.
  apply (generateSubject_from_sans ["localhost"; "127.0.0.1"]). discriminate.
Defined.

(** ** Runs of [Sign] *)

Lemma Sign_calls_own_provisioner_witness :
  let c := CallRoots (H:=env) "https://ca" (Ok {| Certificates := [rootCert] |}) in
  (exists r, c = CallRoots (provisioner step) r) \/
  (exists subject sans r, c = CallToken (provisioner step) subject sans r) \/
  (exists req r, c = CallSign (provisioner step) req r).
Proof.
  intros c.
  apply (Sign_calls_own_provisioner (H:=env) step (requestOf "named" None)
           healthy c).
  vm_compute. left. reflexivity.
Defined.

(** The roots cannot be fetched; the request is not looked at. *)
Lemma Sign_roots_first_witness :
  calls_of (Sign step (requestOf "malformed" None)) rootsDown
    = [CallRoots (H:=env) (provisioner step) (Err "ca: roots unavailable")] /\
  result_of (Sign step (requestOf "malformed" None)) rootsDown
    = (None, None, Some (Upstream (H:=env) "ca: roots unavailable")).
Proof.
  apply (Sign_roots_first (H:=env) step (requestOf "malformed" None)
           rootsDown rootsDown "ca: roots unavailable").
  reflexivity.
Defined.

(** A request whose signature does not verify. *)
Lemma Sign_rejects_before_token_witness :
  calls_of (Sign step (requestOf "forged" None)) healthy
    = [CallRoots (H:=env) (provisioner step)
         (Ok {| Certificates := [rootCert] |})] /\
  result_of (Sign step (requestOf "forged" None)) healthy
    = (None, None,
       Some (Errorf (H:=env)
               "error checking certificate request signature: x509: signature mismatch")).
Proof.
  apply (Sign_rejects_before_token (H:=env) step (requestOf "forged" None)
           healthy healthy).
  - reflexivity.
  - vm_compute. reflexivity.
Defined.

Lemma Sign_request_contents_witness :
  let req := {| CsrPEM := csrNamed; OTT := "token:example.com";
                NotBefore := 0%Z; NotAfter := 3600%Z |} in
  exists subject sans,
    decodeCSR (specRequest (requestOf "named" (Some 3600%Z)))
      = Ok (CsrPEM req) /\
    In (CallToken (H:=env) (provisioner step) subject sans (Ok (OTT req)))
       (calls_of (Sign step (requestOf "named" (Some 3600%Z))) healthy) /\
    NotBefore req = TimeDuration_zero.
Proof.
  intros req.
  apply (Sign_request_contents (H:=env) step (requestOf "named" (Some 3600%Z))
           healthy (provisioner step) req
           (Ok {| ServerPEM := leafFor csrNamed; CaPEM := intermediateCert |})).
  vm_compute. right. right. left. reflexivity.
Defined.

(** The scripted CA has one root: the bundle is not nil. *)
Lemma Sign_nil_root_bundle_witness :
  let res := result_of (Sign step (requestOf "named" None)) healthy in
  res.1.1 <> None /\ (res.1.2 = None <-> [rootCert] = []).
Proof.
  intros res.
  apply (Sign_nil_root_bundle (H:=env) step (requestOf "named" None)
           healthy healthy {| Certificates := [rootCert] |} res.1.1 res.1.2).
  - reflexivity.
  - vm_compute. reflexivity.
Defined.

Lemma Sign_succeeds_witness :
  exists caPem,
    result_of (Sign step (requestOf "named" (Some 3600%Z))) healthy
    = (Some (pemOf (leafFor csrNamed) ++ pemOf intermediateCert), caPem, None).
Proof.
  apply (Sign_succeeds (H:=env) step (requestOf "named" (Some 3600%Z))
           (bytes_of_string "named") csrNamed healthy healthy healthy healthy
           {| Certificates := [rootCert] |} "token:example.com"
           {| ServerPEM := leafFor csrNamed; CaPEM := intermediateCert |});
    reflexivity.
Defined.


(** The token is refused: the error is the CA's. *)
Lemma Sign_error_kinds_witness :
  let calls := calls_of (Sign step (requestOf "named" None)) tokenRefused in
  let err := Upstream (H:=env) "ca: token refused" in
  (exists msg, err = Errorf msg /\
               decodeCSR (specRequest (requestOf "named" None)) = Err err /\
               Forall (fun c => is_Token c = false) calls)
  \/
  (exists c e, last calls = Some c /\ failure c = Some e /\ err = Upstream e).
Proof.
  intros calls err.
  apply (Sign_error_kinds (H:=env) step (requestOf "named" None) tokenRefused
           None None err).
  vm_compute. reflexivity.
Defined.

Lemma Sign_subject_nonempty_witness :
  tokenSubject csrAnonymous (collectSANs csrAnonymous) <> "".
Proof.
  apply (Sign_subject_nonempty (H:=env) step (requestOf "anonymous" None)
           healthy (provisioner step) _ (collectSANs csrAnonymous)
           (Ok "token:app.example.com")).
  - vm_compute. right. left. reflexivity.
  - vm_compute. repeat constructor; discriminate.
Defined.

(** ** Runs of [New] *)

Lemma createIdentityCertificate_success_witness :
  exists csr pk token resp tr,
    calls_of (createIdentityCertificate step) authRequired =
      [CallCreateCertificateRequest (H:=env) (name step) (Ok (csr, pk));
       CallToken (provisioner step) (name step) [] (Ok token);
       CallSign (provisioner step)
                {| CsrPEM := csr; OTT := token;
                   NotBefore := TimeDuration_zero;
                   NotAfter := TimeDuration_zero |} (Ok resp);
       CallTransport (provisioner step) resp pk (Ok tr);
       CallSetTransport (provisioner step) tr].
Proof.
  apply (createIdentityCertificate_success (H:=env) step authRequired).
  reflexivity.
Defined.

Lemma createIdentityCertificate_failure_witness :
  exists done c e,
    calls_of (createIdentityCertificate step) noTransport = done ++ [c] /\
    Forall (fun c' => failure c' = None) done /\
    failure c = Some e /\
    Upstream (H:=env) "ca: transport failed" = Upstream e /\
    Forall (fun c' => is_SetTransport c' = false) (done ++ [c]).
Proof.
  apply (createIdentityCertificate_failure (H:=env) step noTransport).
  reflexivity.
Defined.

(** An issuer without CA bundle: no option. *)
Lemma New_client_options_witness :
  "admin" = specProvisionerName issuer /\ "kid" = specProvisionerKeyID issuer /\
  "https://ca" = specURL issuer /\ bytes_of_string "secret" = bytes_of_string "secret" /\
  ((specCABundle issuer = [] /\ @nil ClientOption = []) \/
   (specCABundle issuer <> [] /\
    @nil ClientOption = [WithCABundle (specCABundle issuer)])).
Proof.
  apply (New_client_options (H:=env) issuer (bytes_of_string "secret") healthy
           "admin" "kid" "https://ca" (bytes_of_string "secret") []
           (Ok "https://ca")).
  vm_compute. left. reflexivity.
Defined.

Lemma New_returns_named_step_witness :
  step = stepOf issuer (provisioner step) /\
  exists rest,
    calls_of (New issuer []) healthy =
      CallNewProvisioner (H:=env) (specProvisionerName issuer)
        (specProvisionerKeyID issuer) (specURL issuer) [] (optionsOf issuer)
        (Ok (provisioner step)) :: rest /\
    Forall (fun c =>
              match c with
              | CallNewProvisioner _ _ _ _ _ _ => False
              | CallCreateCertificateRequest cn _ => cn = name step
              | CallVersion q _ | CallRoots q _ | CallToken q _ _ _
              | CallSign q _ _ | CallTransport q _ _ _
              | CallSetTransport q _ => q = provisioner step
              end) rest.
Proof.
  apply (New_returns_named_step (H:=env) issuer [] healthy step None).
  reflexivity.
Defined.

Lemma New_runs_exchange_witness :
  calls_of (New issuer []) authRequired =
    CallNewProvisioner (H:=env) (specProvisionerName issuer)
      (specProvisionerKeyID issuer) (specURL issuer) [] (optionsOf issuer)
      (Ok "https://ca")
    :: CallVersion "https://ca"
         (Ok {| Version := "0.15"; RequireClientAuthentication := true |})
    :: calls_of (createIdentityCertificate (stepOf issuer "https://ca"))
                authRequired /\
  result_of (New issuer []) authRequired =
    match result_of (createIdentityCertificate (stepOf issuer "https://ca"))
                    authRequired with
    | Some err => (None, Some err)
    | None => (Some (stepOf issuer "https://ca"), None)
    end.
Proof.
  apply (New_runs_exchange (H:=env) issuer [] authRequired authRequired
           authRequired "https://ca"
           {| Version := "0.15"; RequireClientAuthentication := true |});
    reflexivity.
Defined.

Lemma New_without_client_authentication_witness :
  result_of (New issuer []) healthy = (Some (stepOf issuer "https://ca"), None) /\
  length (calls_of (New issuer []) healthy) = 2 /\
  Forall (fun c => is_exchange c = false /\ is_SetTransport c = false)
         (calls_of (New issuer []) healthy).
Proof.
  apply (New_without_client_authentication (H:=env) issuer [] healthy
           "https://ca"
           {| Version := "0.15"; RequireClientAuthentication := false |}).
  - vm_compute. right. left. reflexivity.
  - reflexivity.
Defined.

Lemma New_error_passthrough_witness :
  exists done c e,
    calls_of (New issuer []) noTransport = done ++ [c] /\
    Forall (fun c' => failure c' = None) done /\
    failure c = Some e /\
    Upstream (H:=env) "ca: transport failed" = Upstream e /\
    Forall (fun c' => is_SetTransport c' = false) (done ++ [c]).
Proof.
  apply (New_error_passthrough (H:=env) issuer [] noTransport None).
  reflexivity.
Defined.

Lemma New_installs_transport_witness :
  exists csr pk token resp tr,
    In (CallCreateCertificateRequest (H:=env) (name step) (Ok (csr, pk)))
       (calls_of (New issuer []) authRequired) /\
    In (CallToken (provisioner step) (name step) [] (Ok token))
       (calls_of (New issuer []) authRequired) /\
    In (CallSign (provisioner step)
                 {| CsrPEM := csr; OTT := token;
                    NotBefore := TimeDuration_zero;
                    NotAfter := TimeDuration_zero |} (Ok resp))
       (calls_of (New issuer []) authRequired) /\
    In (CallTransport (provisioner step) resp pk (Ok tr))
       (calls_of (New issuer []) authRequired) /\
    last (calls_of (New issuer []) authRequired)
      = Some (CallSetTransport (provisioner step) tr).
Proof.
  apply (New_installs_transport (H:=env) issuer [] authRequired step
           "https://ca"
           {| Version := "0.15"; RequireClientAuthentication := true |}).
  - reflexivity.
  - vm_compute. right. left. reflexivity.
  - reflexivity.
Defined.

(** ** The registry *)

(** Two provisioners stored under one name, then one under another. *)
Lemma Load_last_Store_witness :
  let n := {| Namespace := "default"; Name := "issuer" |} in
  let m := {| Namespace := "default"; Name := "other" |} in
  Load n (storeAll ([(n, None)] ++ (n, Some step) :: [(m, None)]) ∅)
  = (Some step, true).
Proof.
  intros n m.
  apply (Load_last_Store (H:=env) n (Some step) [(n, None)] [(m, None)] ∅).
  cbn. intros [E|[]]. discriminate E.
Defined.

End MoreExamples.
